(** * Tool-execution coordination of the Claude agent workflow helpers

    A shallow embedding of
      - [temporalio/contrib/claude_agent/_tool_decorator.py]
        (ToolDenied, ToolHandler, ToolRegistry, the per-instance registry
        table, register_tool_handlers), and
      - [temporalio/contrib/claude_agent/_workflow_helpers.py]
        (ToolRequest, ToolResult, the ClaudeMessageReceiver mixin).

    Python objects whose identity matters (ToolRegistry instances, which are
    reachable both from the module-level table and from the instance
    attribute [_tool_registry]) live in a store and are referred to by
    location.  Instance attributes are optional fields: [None] means that
    [hasattr] is false and that reading the attribute raises AttributeError. *)

From Stdlib Require Import QArith_base.
From stdpp Require Import gmap strings list fin_maps.

Open Scope string_scope.
Open Scope list_scope.

(** ** Python values, exceptions, completions *)

(** The JSON-like values carried by messages and tool inputs ([Any]). *)
#[local] Set Warnings "-register-all".
#[local] Unset Elimination Schemes.
Inductive PyVal :=
| PyNone
| PyBool (b : bool)
| PyInt (z : Z)
| PyStr (s : string)
| PyList (l : list PyVal)
| PyDict (d : list (string * PyVal)).

#[local] Set Elimination Schemes.

(** [dict[str, Any]] as received from the payload converter. *)
Definition StrDict := list (string * PyVal).

Fixpoint assoc {V : Type} (k : string) (d : list (string * V)) : option V :=
  match d with
  | [] => None
  | (k', v) :: d' => if decide (k' = k) then Some v else assoc k d'
  end.

(** Exceptions, by the classes the source distinguishes.  [ToolDenied] is the
    class of [_tool_decorator.py]; [PyException] stands for any other class
    derived from [Exception]; [PyBaseException] for the classes derived from
    [BaseException] only (asyncio.CancelledError, KeyboardInterrupt,
    SystemExit, GeneratorExit), which [except Exception] does not catch. *)
Inductive exn :=
| ToolDenied (message : string) (interrupt : bool)
| AttributeError (text : string)
| KeyError (text : string)
| ValidationError (text : string)
| TimeoutError
| PyException (text : string)
| PyBaseException (text : string).

(** [isinstance(e, Exception)]. *)
Definition is_Exception (e : exn) : bool :=
  match e with
  | PyBaseException _ => false
  | _ => true
  end.

(** [str(e)]; ToolDenied passes its message to [super().__init__]. *)
Definition str (e : exn) : string :=
  match e with
  | ToolDenied m _ => m
  | TimeoutError => EmptyString
  | AttributeError t | KeyError t | ValidationError t
  | PyException t | PyBaseException t => t
  end.

(** How a call without access to the receiver state completes. *)
Inductive Completion (A : Type) :=
| Returns (a : A)
| Raises (e : exn).
Arguments Returns {A} a.
Arguments Raises {A} e.

(** ** Insertion-ordered dictionaries

    [ToolRegistry.handlers] is a Python dict whose key order is observable
    through [list(registry.handlers.keys())]: assignment to an existing key
    keeps its position, a new key goes to the end. *)
Module OrdDict.

Fixpoint set {V : Type} (k : string) (v : V) (d : list (string * V))
  : list (string * V) :=
  match d with
  | [] => [(k, v)]
  | (k', v') :: d' =>
      if decide (k' = k) then (k, v) :: d' else (k', v') :: set k v d'
  end.

Definition keys {V : Type} (d : list (string * V)) : list string := d.*1.

Definition mem {V : Type} (k : string) (d : list (string * V)) : bool :=
  bool_decide (is_Some (assoc k d)).

End OrdDict.

(** ** The data classes *)

(** [ToolRequest(BaseModel)]. *)
Module ToolRequest.

Record t := {
  tool_id : string;
  tool_name : string;
  input : StrDict;
}.

(** [ToolRequest.model_validate(request_dict)]: the three declared fields
    must be present with their declared types (pydantic does not coerce
    other JSON values to [str] or to [dict]); further keys are ignored. *)
Definition model_validate (request_dict : StrDict) : Completion t :=
  match assoc "tool_id" request_dict,
        assoc "tool_name" request_dict,
        assoc "input" request_dict with
  | Some (PyStr i), Some (PyStr n), Some (PyDict d) =>
      Returns {| tool_id := i; tool_name := n; input := d |}
  | _, _, _ => Raises (ValidationError "ToolRequest")
  end.

End ToolRequest.

(** [ToolResult(BaseModel)]; [result], [error] default to [None] and
    [interrupt] to [False].  [model_dump()] is the record itself. *)
Module ToolResult.

Record t := {
  tool_id : string;
  success : bool;
  result : option string;
  error : option string;
  interrupt : bool;
}.

End ToolResult.

(** [Literal["claude", "activity", "workflow"]]. *)
Inductive Execution := claude | activity | workflow.

(** A bound handler method: [handler(tool_id, input)] awaited to completion.
    A handler is represented by how the awaited call completes (the string
    it returns or the exception it raises); what it does to the instance
    while it runs is not represented, so the theorems speak of the code
    around the call, not of the handler's own effects. *)
Definition Handler := string → StrDict → Completion string.

(** [@dataclass ToolHandler]. *)
Module ToolHandler.

Record t := {
  tool_name : string;
  execution : Execution;
  handler : Handler;
}.

End ToolHandler.

(** [@dataclass ToolRegistry], as a value. *)
Module ToolRegistry.

Record t := {
  handlers : list (string * ToolHandler.t);
}.

(** [ToolRegistry()]: [handlers] from [default_factory=dict]. *)
Definition new : t := {| handlers := [] |}.

Definition register (tool_name : string) (handler : Handler)
    (execution : Execution) (self : t) : t :=
  {| handlers :=
       OrdDict.set tool_name
         {| ToolHandler.tool_name := tool_name;
            ToolHandler.execution := execution;
            ToolHandler.handler := handler |}
         (handlers self) |}.

Definition get (tool_name : string) (self : t) : option ToolHandler.t :=
  assoc tool_name (handlers self).

Definition has (tool_name : string) (self : t) : bool :=
  OrdDict.mem tool_name (handlers self).

End ToolRegistry.

#[global] Instance ToolRegistry_inhabited : Inhabited ToolRegistry.t :=
  populate ToolRegistry.new.

(** ** The workflow instance and the module state *)

(** [asyncio.Event]: only its flag is observable. *)
Module Event.
Abbreviation t := bool.
Definition new : t := false.
Definition set (e : t) : t := true.
Definition clear (e : t) : t := false.
Definition is_set (e : t) : bool := e.
End Event.

(** What [getattr(workflow_instance, attr_name)] gives for a name of
    [dir(workflow_instance)]. *)
Record AttrValue := {
  callable : bool;
  _claude_tool_name : option string;
  _claude_tool_execution : option Execution;
  call : Handler;
}.

Inductive Access :=
| Gives (v : AttrValue)
| Throws (e : exn).

(** The attributes [init_claude_receiver] and [get_tool_registry] assign on
    [self]. *)
Record Attrs := {
  _claude_messages : option (list StrDict);
  _claude_outgoing : option (list string);
  _claude_message_event : option Event.t;
  _pending_tool_requests : option (list ToolRequest.t);
  _tool_results : option (gmap string ToolResult.t);
  _tool_request_event : option Event.t;
  _tool_result_events : option (gmap string Event.t);
  _tool_registry : option positive;
}.

(** A new object: no attribute assigned yet. *)
Definition no_attrs : Attrs :=
  {| _claude_messages := None; _claude_outgoing := None;
     _claude_message_event := None; _pending_tool_requests := None;
     _tool_results := None; _tool_request_event := None;
     _tool_result_events := None; _tool_registry := None |}.

(** One workflow instance together with the module state of
    [_tool_decorator.py].  [members] pairs each name of
    [dir(workflow_instance)] that is not one of the data attributes above
    with what [getattr] does for it (the data attributes hold lists, dicts,
    events and a dataclass instance, none of them callable, so discovery
    skips them).  [store] holds the ToolRegistry objects. *)
Record World := {
  instance_id : Z;
  members : list (string * Access);
  attrs : Attrs;
  store : gmap positive ToolRegistry.t;
  _WORKFLOW_TOOL_REGISTRY : gmap Z positive;
}.

Definition with_attrs (a : Attrs) (w : World) : World :=
  {| instance_id := instance_id w; members := members w; attrs := a;
     store := store w; _WORKFLOW_TOOL_REGISTRY := _WORKFLOW_TOOL_REGISTRY w |}.

Definition with_store (s : gmap positive ToolRegistry.t) (w : World) : World :=
  {| instance_id := instance_id w; members := members w; attrs := attrs w;
     store := s; _WORKFLOW_TOOL_REGISTRY := _WORKFLOW_TOOL_REGISTRY w |}.

Definition with_table (g : gmap Z positive) (w : World) : World :=
  {| instance_id := instance_id w; members := members w; attrs := attrs w;
     store := store w; _WORKFLOW_TOOL_REGISTRY := g |}.

(** ** Coroutines over the world

    A call either returns, raises, or is left suspended on an event that is
    not set.  Each call runs without interleaving up to that point, as
    under the single-threaded cooperative loop; handlers are awaited to
    completion in place. *)
Inductive Outcome (A : Type) :=
| Returned (a : A) (w : World)
| Raised (e : exn) (w : World)
| Suspended (w : World).
Arguments Returned {A} a w.
Arguments Raised {A} e w.
Arguments Suspended {A} w.

Definition M (A : Type) := World → Outcome A.

Definition ret {A} (a : A) : M A := fun w => Returned a w.

Definition bind {A B} (m : M A) (k : A → M B) : M B :=
  fun w =>
    match m w with
    | Returned a w' => k a w'
    | Raised e w' => Raised e w'
    | Suspended w' => Suspended w'
    end.

Notation "x <- m ;; k" := (bind m (fun x => k))
  (at level 100, m at next level, right associativity).
Notation "m ;; k" := (bind m (fun _ => k))
  (at level 100, right associativity).

Definition raise {A} (e : exn) : M A := fun w => Raised e w.

(** [await event.wait()] with no timeout. *)
Definition await_event (e : Event.t) : M unit :=
  fun w => if Event.is_set e then Returned tt w else Suspended w.

(** A call that does not touch the world. *)
Definition lift {A} (c : Completion A) : M A :=
  fun w =>
    match c with
    | Returns a => Returned a w
    | Raises e => Raised e w
    end.

(** [try: body  except ...], the clauses tried in order; an exception no
    clause matches propagates. *)
Definition try_ {A} (body : M A) (clauses : exn → option (M A)) : M A :=
  fun w =>
    match body w with
    | Raised e w' =>
        match clauses e with
        | Some h => h w'
        | None => Raised e w'
        end
    | o => o
    end.

Definition except_ToolDenied {A} (h : string → bool → M A)
  : exn → option (M A) :=
  fun e => match e with ToolDenied m i => Some (h m i) | _ => None end.

Definition except_TimeoutError {A} (h : M A) : exn → option (M A) :=
  fun e => match e with TimeoutError => Some h | _ => None end.

Definition except_Exception {A} (h : exn → M A) : exn → option (M A) :=
  fun e => if is_Exception e then Some (h e) else None.

Definition or_except {A} (c1 c2 : exn → option (M A)) : exn → option (M A) :=
  fun e => match c1 e with Some h => Some h | None => c2 e end.

(** [await asyncio.wait_for(event.wait(), timeout)].  With the event set it
    returns.  With the event not set, a timeout that is not positive has
    already elapsed and TimeoutError is raised at once; a positive timeout
    leaves the caller parked until the event is set or the timer fires,
    and other calls run meanwhile: the call is [Suspended].  The timer
    firing is the same call resumed with timeout 0. *)
Definition wait_for_event (e : Event.t) (timeout : Q) : M unit :=
  fun w =>
    if Event.is_set e then Returned tt w
    else if Qle_bool timeout 0 then Raised TimeoutError w
    else Suspended w.

Fixpoint for_each {A} (f : A → M unit) (l : list A) : M unit :=
  match l with
  | [] => ret tt
  | x :: l' => f x ;; for_each f l'
  end.

Definition get_world : M World := fun w => Returned w w.
Definition modify (f : World → World) : M unit := fun w => Returned tt (f w).

(** [hasattr(self, name)] and [self.name] for the data attributes. *)
Definition hasattr {A} (field : Attrs → option A) : M bool :=
  fun w => Returned (bool_decide (is_Some (field (attrs w)))) w.

Definition getattr {A} (name : string) (field : Attrs → option A) : M A :=
  fun w =>
    match field (attrs w) with
    | Some a => Returned a w
    | None => Raised (AttributeError name) w
    end.

Definition setattr (upd : Attrs → Attrs) : M unit :=
  modify (fun w => with_attrs (upd (attrs w)) w).

Definition set_claude_messages v (a : Attrs) : Attrs :=
  {| _claude_messages := Some v; _claude_outgoing := _claude_outgoing a;
     _claude_message_event := _claude_message_event a;
     _pending_tool_requests := _pending_tool_requests a;
     _tool_results := _tool_results a;
     _tool_request_event := _tool_request_event a;
     _tool_result_events := _tool_result_events a;
     _tool_registry := _tool_registry a |}.

Definition set_claude_outgoing v (a : Attrs) : Attrs :=
  {| _claude_messages := _claude_messages a; _claude_outgoing := Some v;
     _claude_message_event := _claude_message_event a;
     _pending_tool_requests := _pending_tool_requests a;
     _tool_results := _tool_results a;
     _tool_request_event := _tool_request_event a;
     _tool_result_events := _tool_result_events a;
     _tool_registry := _tool_registry a |}.

Definition set_claude_message_event v (a : Attrs) : Attrs :=
  {| _claude_messages := _claude_messages a;
     _claude_outgoing := _claude_outgoing a;
     _claude_message_event := Some v;
     _pending_tool_requests := _pending_tool_requests a;
     _tool_results := _tool_results a;
     _tool_request_event := _tool_request_event a;
     _tool_result_events := _tool_result_events a;
     _tool_registry := _tool_registry a |}.

Definition set_pending_tool_requests v (a : Attrs) : Attrs :=
  {| _claude_messages := _claude_messages a;
     _claude_outgoing := _claude_outgoing a;
     _claude_message_event := _claude_message_event a;
     _pending_tool_requests := Some v;
     _tool_results := _tool_results a;
     _tool_request_event := _tool_request_event a;
     _tool_result_events := _tool_result_events a;
     _tool_registry := _tool_registry a |}.

Definition set_tool_results v (a : Attrs) : Attrs :=
  {| _claude_messages := _claude_messages a;
     _claude_outgoing := _claude_outgoing a;
     _claude_message_event := _claude_message_event a;
     _pending_tool_requests := _pending_tool_requests a;
     _tool_results := Some v;
     _tool_request_event := _tool_request_event a;
     _tool_result_events := _tool_result_events a;
     _tool_registry := _tool_registry a |}.

Definition set_tool_request_event v (a : Attrs) : Attrs :=
  {| _claude_messages := _claude_messages a;
     _claude_outgoing := _claude_outgoing a;
     _claude_message_event := _claude_message_event a;
     _pending_tool_requests := _pending_tool_requests a;
     _tool_results := _tool_results a;
     _tool_request_event := Some v;
     _tool_result_events := _tool_result_events a;
     _tool_registry := _tool_registry a |}.

Definition set_tool_result_events v (a : Attrs) : Attrs :=
  {| _claude_messages := _claude_messages a;
     _claude_outgoing := _claude_outgoing a;
     _claude_message_event := _claude_message_event a;
     _pending_tool_requests := _pending_tool_requests a;
     _tool_results := _tool_results a;
     _tool_request_event := _tool_request_event a;
     _tool_result_events := Some v;
     _tool_registry := _tool_registry a |}.

Definition set_tool_registry v (a : Attrs) : Attrs :=
  {| _claude_messages := _claude_messages a;
     _claude_outgoing := _claude_outgoing a;
     _claude_message_event := _claude_message_event a;
     _pending_tool_requests := _pending_tool_requests a;
     _tool_results := _tool_results a;
     _tool_request_event := _tool_request_event a;
     _tool_result_events := _tool_result_events a;
     _tool_registry := Some v |}.

(** ** [_tool_decorator.py] *)
Module ToolDecorator.

(** [get_tool_registry(workflow_instance)]: get or create the entry of the
    module-level table for [id(workflow_instance)]. *)
Definition get_tool_registry : M positive :=
  fun w =>
    match _WORKFLOW_TOOL_REGISTRY w !! instance_id w with
    | Some registry => Returned registry w
    | None =>
        let registry := fresh (dom (store w)) in
        Returned registry
          (with_table (<[instance_id w := registry]> (_WORKFLOW_TOOL_REGISTRY w))
             (with_store (<[registry := ToolRegistry.new]> (store w)) w))
    end.

(** [clear_tool_registry(workflow_instance)]. *)
Definition clear_tool_registry : M unit :=
  modify (fun w =>
    with_table (delete (instance_id w) (_WORKFLOW_TOOL_REGISTRY w)) w).

(** [@claude_tool(tool_name, execution)] applied to [func]. *)
Definition claude_tool (tool_name : string) (execution : Execution)
    (func : Handler) : AttrValue :=
  {| callable := true;
     _claude_tool_name := Some tool_name;
     _claude_tool_execution := Some execution;
     call := func |}.

(** [registry.register(...)], [registry.get(...)] on the stored object. *)
Definition registry_register (registry : positive) (tool_name : string)
    (handler : Handler) (execution : Execution) : M unit :=
  modify (fun w =>
    with_store
      (<[registry :=
           ToolRegistry.register tool_name handler execution
             (store w !!! registry)]> (store w)) w).

Definition registry_get (registry : positive) (tool_name : string)
  : M (option ToolHandler.t) :=
  fun w => Returned (ToolRegistry.get tool_name (store w !!! registry)) w.

(** Reading a tag of an attribute value. *)
Definition tag {A} (name : string) (t : option A) : M A :=
  match t with
  | Some a => ret a
  | None => raise (AttributeError name)
  end.

(** One iteration of the scan loop of [register_tool_handlers]. *)
Definition scan (registry : positive) (member : string * Access) : M unit :=
  try_
    (attr <- match member.2 with
             | Gives v => ret v
             | Throws e => raise e
             end ;;
     if callable attr && bool_decide (is_Some (_claude_tool_name attr)) then
       tool_name <- tag "_claude_tool_name" (_claude_tool_name attr) ;;
       execution <- tag "_claude_tool_execution" (_claude_tool_execution attr) ;;
       registry_register registry tool_name (call attr) execution
     else ret tt)
    (except_Exception (fun _ => ret tt)).

Definition register_tool_handlers : M positive :=
  registry <- get_tool_registry ;;
  w <- get_world ;;
  for_each (scan registry) (members w) ;;
  ret registry.

End ToolDecorator.

(** ** [_workflow_helpers.py]: the ClaudeMessageReceiver mixin *)
Module ClaudeMessageReceiver.

Definition init_claude_receiver : M unit :=
  setattr (set_claude_messages []) ;;
  setattr (set_claude_outgoing []) ;;
  setattr (set_claude_message_event Event.new) ;;
  setattr (set_pending_tool_requests []) ;;
  setattr (set_tool_results ∅) ;;
  setattr (set_tool_request_event Event.new) ;;
  setattr (set_tool_result_events ∅) ;;
  registry <- ToolDecorator.register_tool_handlers ;;
  setattr (set_tool_registry registry).

(** [if not hasattr(self, name): self.init_claude_receiver()]. *)
Definition init_unless_hasattr {A} (field : Attrs → option A) : M unit :=
  b <- hasattr field ;;
  if b then ret tt else init_claude_receiver.

Definition receive_claude_message (message : StrDict) : M unit :=
  init_unless_hasattr _claude_messages ;;
  messages <- getattr "_claude_messages" _claude_messages ;;
  setattr (set_claude_messages (messages ++ [message])) ;;
  event <- getattr "_claude_message_event" _claude_message_event ;;
  setattr (set_claude_message_event (Event.set event)).

Definition wait_for_claude_messages (timeout : option Q) : M (list StrDict) :=
  init_unless_hasattr _claude_messages ;;
  match timeout with
  | Some t =>
      try_
        (event <- getattr "_claude_message_event" _claude_message_event ;;
         wait_for_event event t)
        (except_TimeoutError (ret tt))
  | None =>
      event <- getattr "_claude_message_event" _claude_message_event ;;
      await_event event
  end ;;
  messages <- getattr "_claude_messages" _claude_messages ;;
  setattr (set_claude_messages []) ;;
  event <- getattr "_claude_message_event" _claude_message_event ;;
  setattr (set_claude_message_event (Event.clear event)) ;;
  ret messages.

Definition get_claude_messages : M (list StrDict) :=
  init_unless_hasattr _claude_messages ;;
  messages <- getattr "_claude_messages" _claude_messages ;;
  setattr (set_claude_messages []) ;;
  event <- getattr "_claude_message_event" _claude_message_event ;;
  setattr (set_claude_message_event (Event.clear event)) ;;
  ret messages.

Definition get_and_consume_messages : M (list string) :=
  init_unless_hasattr _claude_outgoing ;;
  messages <- getattr "_claude_outgoing" _claude_outgoing ;;
  setattr (set_claude_outgoing []) ;;
  ret messages.

Definition send_to_claude (message : string) : M unit :=
  init_unless_hasattr _claude_outgoing ;;
  outgoing <- getattr "_claude_outgoing" _claude_outgoing ;;
  setattr (set_claude_outgoing (outgoing ++ [message])).

Definition get_tool_registry : M positive :=
  b <- hasattr _tool_registry ;;
  (if b then ret tt
   else
     registry <- ToolDecorator.register_tool_handlers ;;
     setattr (set_tool_registry registry)) ;;
  getattr "_tool_registry" _tool_registry.

(** The three ways [request_tool_execution] builds its ToolResult. *)
Definition no_handler_result (request : ToolRequest.t) : ToolResult.t :=
  {| ToolResult.tool_id := ToolRequest.tool_id request;
     ToolResult.success := false;
     ToolResult.result := None;
     ToolResult.error :=
       Some (String.append "No handler registered for tool: "
               (ToolRequest.tool_name request));
     ToolResult.interrupt := false |}.

Definition success_result (tool_id output : string) : ToolResult.t :=
  {| ToolResult.tool_id := tool_id;
     ToolResult.success := true;
     ToolResult.result := Some output;
     ToolResult.error := None;
     ToolResult.interrupt := false |}.

Definition failure_result (tool_id error : string) (interrupt : bool)
  : ToolResult.t :=
  {| ToolResult.tool_id := tool_id;
     ToolResult.success := false;
     ToolResult.result := None;
     ToolResult.error := Some error;
     ToolResult.interrupt := interrupt |}.

Definition request_tool_execution (request_dict : StrDict) : M unit :=
  init_unless_hasattr _pending_tool_requests ;;
  request <- lift (ToolRequest.model_validate request_dict) ;;
  let tool_id := ToolRequest.tool_id request in
  events <- getattr "_tool_result_events" _tool_result_events ;;
  setattr (set_tool_result_events (<[tool_id := Event.new]> events)) ;;
  registry <- get_tool_registry ;;
  handler <- ToolDecorator.registry_get registry (ToolRequest.tool_name request) ;;
  result <-
    match handler with
    | None => ret (no_handler_result request)
    | Some h =>
        try_
          (output <- lift (ToolHandler.handler h tool_id
                             (ToolRequest.input request)) ;;
           ret (success_result tool_id output))
          (or_except
             (except_ToolDenied (fun message interrupt =>
                ret (failure_result tool_id message interrupt)))
             (except_Exception (fun e =>
                ret (failure_result tool_id (str e) false))))
    end ;;
  results <- getattr "_tool_results" _tool_results ;;
  setattr (set_tool_results (<[tool_id := result]> results)) ;;
  events <- getattr "_tool_result_events" _tool_result_events ;;
  match events !! tool_id with
  | Some event =>
      setattr (set_tool_result_events (<[tool_id := Event.set event]> events))
  | None => raise (KeyError tool_id)
  end.

(** The phases of [request_tool_execution], for stating what happens
    around the awaited handler: everything up to the registry lookup, the
    construction of the result, and the two assignments that store it and
    set its event.  [request_tool_execution_phases] below shows that the
    method is their composition. *)
Definition accept (request_dict : StrDict)
  : M (ToolRequest.t * option ToolHandler.t) :=
  init_unless_hasattr _pending_tool_requests ;;
  request <- lift (ToolRequest.model_validate request_dict) ;;
  events <- getattr "_tool_result_events" _tool_result_events ;;
  setattr (set_tool_result_events
             (<[ToolRequest.tool_id request := Event.new]> events)) ;;
  registry <- get_tool_registry ;;
  handler <- ToolDecorator.registry_get registry (ToolRequest.tool_name request) ;;
  ret (request, handler).

Definition dispatch (request : ToolRequest.t) (handler : option ToolHandler.t)
  : M ToolResult.t :=
  let tool_id := ToolRequest.tool_id request in
  match handler with
  | None => ret (no_handler_result request)
  | Some h =>
      try_
        (output <- lift (ToolHandler.handler h tool_id
                           (ToolRequest.input request)) ;;
         ret (success_result tool_id output))
        (or_except
           (except_ToolDenied (fun message interrupt =>
              ret (failure_result tool_id message interrupt)))
           (except_Exception (fun e =>
              ret (failure_result tool_id (str e) false))))
  end.

Definition resolve (request : ToolRequest.t) (result : ToolResult.t) : M unit :=
  let tool_id := ToolRequest.tool_id request in
  results <- getattr "_tool_results" _tool_results ;;
  setattr (set_tool_results (<[tool_id := result]> results)) ;;
  events <- getattr "_tool_result_events" _tool_result_events ;;
  match events !! tool_id with
  | Some event =>
      setattr (set_tool_result_events (<[tool_id := Event.set event]> events))
  | None => raise (KeyError tool_id)
  end.

Definition not_found_result (tool_id : string) : ToolResult.t :=
  failure_result tool_id "Tool result not found" false.

Definition get_tool_result (tool_id : string) : M ToolResult.t :=
  init_unless_hasattr _tool_results ;;
  events <- getattr "_tool_result_events" _tool_result_events ;;
  match events !! tool_id with
  | Some event => await_event event
  | None => ret tt
  end ;;
  results <- getattr "_tool_results" _tool_results ;;
  let result := results !! tool_id in
  setattr (set_tool_results (delete tool_id results)) ;;
  events <- getattr "_tool_result_events" _tool_result_events ;;
  (if bool_decide (is_Some (events !! tool_id))
   then setattr (set_tool_result_events (delete tool_id events))
   else ret tt) ;;
  match result with
  | None => ret (not_found_result tool_id)
  | Some r => ret r
  end.

Definition get_registered_tools : M (list string) :=
  registry <- get_tool_registry ;;
  w <- get_world ;;
  ret (OrdDict.keys (ToolRegistry.handlers (store w !!! registry))).

End ClaudeMessageReceiver.

(** ** Observations on a world *)

(** The world a call leaves behind, however it ends. *)
Definition final {A} (o : Outcome A) : World :=
  match o with
  | Returned _ w | Raised _ w | Suspended w => w
  end.

(** [self._tool_results.get(tool_id)] and the per-id event, [None] also when
    the attribute itself is missing. *)
Definition stored_result (tool_id : string) (w : World) : option ToolResult.t :=
  _tool_results (attrs w) ≫= (.!! tool_id).

Definition result_event (tool_id : string) (w : World) : option Event.t :=
  _tool_result_events (attrs w) ≫= (.!! tool_id).

(** The registry object the instance refers to. *)
Definition instance_registry (w : World) : option ToolRegistry.t :=
  (fun registry => store w !!! registry) <$> _tool_registry (attrs w).

(** What a call of [_tool_decorator.py] leaves alone. *)
Definition decorator_frame (w w' : World) : Prop :=
  attrs w' = attrs w ∧ members w' = members w ∧
  instance_id w' = instance_id w.

(** The seven data attributes are assigned together by
    [init_claude_receiver] and never deleted. *)
Definition initialized (a : Attrs) : Prop :=
  is_Some (_claude_messages a) ∧ is_Some (_claude_outgoing a) ∧
  is_Some (_claude_message_event a) ∧ is_Some (_pending_tool_requests a) ∧
  is_Some (_tool_results a) ∧ is_Some (_tool_request_event a) ∧
  is_Some (_tool_result_events a).

Definition uninitialized (a : Attrs) : Prop :=
  _claude_messages a = None ∧ _claude_outgoing a = None ∧
  _claude_message_event a = None ∧ _pending_tool_requests a = None ∧
  _tool_results a = None ∧ _tool_request_event a = None ∧
  _tool_result_events a = None.

Definition coherent (a : Attrs) : Prop := initialized a ∨ uninitialized a.

(** A computation that never loses a data attribute. *)
Definition keeps_initialized {A} (m : M A) : Prop :=
  ∀ w, initialized (attrs w) → initialized (attrs (final (m w))).

(** A computation under which a property of the world is stable, however
    the computation ends. *)
Definition preserves {A} (P : World → Prop) (m : M A) : Prop :=
  ∀ w, P w → P (final (m w)).

(** The inbound event is set exactly when the inbound buffer is non-empty. *)
Definition event_matches_buffer (w : World) : Prop :=
  ∃ buf ev,
    _claude_messages (attrs w) = Some buf ∧
    _claude_message_event (attrs w) = Some ev ∧
    (ev = true ↔ buf ≠ []).

(** The two attributes [init_claude_receiver] assigns and no method uses. *)
Definition request_queue_idle (w : World) : Prop :=
  _pending_tool_requests (attrs w) = Some [] ∧
  _tool_request_event (attrs w) = Some Event.new.

(** The parts of the world by concern: the inbound buffer with its event,
    the outbound buffer, the per-id tool state, and the registries. *)
Definition inbound_state (w : World) :=
  (_claude_messages (attrs w), _claude_message_event (attrs w)).

Definition outbound_state (w : World) := _claude_outgoing (attrs w).

Definition tool_state (w : World) :=
  (_pending_tool_requests (attrs w), _tool_results (attrs w),
   _tool_request_event (attrs w), _tool_result_events (attrs w)).

Definition registry_state (w : World) :=
  (_tool_registry (attrs w), store w, _WORKFLOW_TOOL_REGISTRY w).

(** The data attributes right after [init_claude_receiver]. *)
Definition init_attrs (registry : option positive) : Attrs :=
  {| _claude_messages := Some []; _claude_outgoing := Some [];
     _claude_message_event := Some Event.new;
     _pending_tool_requests := Some [];
     _tool_results := Some ∅; _tool_request_event := Some Event.new;
     _tool_result_events := Some ∅; _tool_registry := registry |}.

(** What one member contributes to discovery: the arguments of the
    [registry.register] call the scan loop makes for it, if any. *)
Definition discovered (member : string * Access)
  : option (string * Handler * Execution) :=
  match member.2 with
  | Gives v =>
      if callable v then
        match _claude_tool_name v, _claude_tool_execution v with
        | Some n, Some ex => Some (n, call v, ex)
        | _, _ => None
        end
      else None
  | Throws _ => None
  end.

Definition register_entry (r : ToolRegistry.t)
    (entry : string * Handler * Execution) : ToolRegistry.t :=
  ToolRegistry.register entry.1.1 entry.1.2 entry.2 r.

(** The entry a run of registrations leaves under [k], given the one that
    was there before. *)
Definition overridden (k : string)
    (entries : list (string * Handler * Execution))
    (before : option ToolHandler.t) : option ToolHandler.t :=
  foldl (fun acc entry =>
           if decide (entry.1.1 = k)
           then Some {| ToolHandler.tool_name := entry.1.1;
                        ToolHandler.execution := entry.2;
                        ToolHandler.handler := entry.1.2 |}
           else acc) before entries.

(** Members whose access raises raise an [Exception]. *)
Definition access_faults_are_Exceptions (ms : list (string * Access)) : Prop :=
  ∀ name e, (name, Throws e) ∈ ms → is_Exception e = true.

(** A method is safe on an instance on which [init_claude_receiver] never
    ran when, from every such world, it does exactly what it does right
    after [init_claude_receiver], and does not end in an AttributeError. *)
Definition lazily_initializing {A} (method : M A) : Prop :=
  ∀ w,
    uninitialized (attrs w) →
    method w = (ClaudeMessageReceiver.init_claude_receiver ;; method) w ∧
    ∀ text w', method w ≠ Raised (AttributeError text) w'.

(** What makes a method safe on a given world on which
    [init_claude_receiver] never ran: it does there what it does right
    after [init_claude_receiver]; however it ends, the seven data
    attributes are assigned afterwards; and it does not end in an
    AttributeError. *)
Definition initializes_first {A} (method : M A) (w : World) : Prop :=
  method w = (ClaudeMessageReceiver.init_claude_receiver ;; method) w ∧
  initialized (attrs (final (method w))) ∧
  ∀ text w', method w ≠ Raised (AttributeError text) w'.

(** [sub] occurs in [s]. *)
Definition contains (sub s : string) : Prop :=
  ∃ pre post, s = String.append pre (String.append sub post).

(** ** A sample workflow class

    A workflow in the style of the Phase 3 test workflow: tagged handler
    methods, an untagged method and a property whose access raises. *)
Module Sample.

Definition echo : Handler :=
  fun _ input =>
    match assoc "x" input with
    | Some (PyStr s) => Returns s
    | _ => Raises (KeyError "x")
    end.

Definition only_echo : Handler :=
  fun _ _ => Raises (ToolDenied "Only echo commands are allowed" true).

Definition faulty : Handler := fun _ _ => Raises (PyException "boom").

Definition cancelled : Handler :=
  fun _ _ => Raises (PyBaseException "CancelledError").

Definition untagged : AttrValue :=
  {| callable := true; _claude_tool_name := None;
     _claude_tool_execution := None; call := faulty |}.

Definition class_members : list (string * Access) :=
  [("handle_bash", Gives (ToolDecorator.claude_tool "Bash" workflow only_echo));
   ("handle_echo", Gives (ToolDecorator.claude_tool "Echo" workflow echo));
   ("handle_fetch", Gives (ToolDecorator.claude_tool "Fetch" activity cancelled));
   ("handle_write", Gives (ToolDecorator.claude_tool "Write" activity faulty));
   ("lazy_property", Throws (AttributeError "lazy_property"));
   ("run", Gives untagged)].

(** A freshly constructed instance: nothing assigned, no registry yet. *)
Definition new_instance : World :=
  {| instance_id := 140; members := class_members; attrs := no_attrs;
     store := ∅; _WORKFLOW_TOOL_REGISTRY := ∅ |}.

(** The same class with a property whose access raises KeyboardInterrupt. *)
Definition interrupted_instance : World :=
  {| instance_id := 141;
     members := ("aborting", Throws (PyBaseException "KeyboardInterrupt"))
                  :: class_members;
     attrs := no_attrs; store := ∅; _WORKFLOW_TOOL_REGISTRY := ∅ |}.

(** The instance once its [run] method has called [init_claude_receiver]. *)
Definition started : World :=
  final (ClaudeMessageReceiver.init_claude_receiver new_instance).

(** The new instance after one run of discovery. *)
Definition scanned : World :=
  final (ToolDecorator.register_tool_handlers new_instance).

Definition request (tool_id tool_name x : string) : StrDict :=
  [("tool_id", PyStr tool_id); ("tool_name", PyStr tool_name);
   ("input", PyDict [("x", PyStr x)])].

Definition tool_request (tool_id tool_name x : string) : ToolRequest.t :=
  {| ToolRequest.tool_id := tool_id; ToolRequest.tool_name := tool_name;
     ToolRequest.input := [("x", PyStr x)] |}.

Definition entry (tool_name : string) (execution : Execution) (h : Handler)
  : ToolHandler.t :=
  {| ToolHandler.tool_name := tool_name; ToolHandler.execution := execution;
     ToolHandler.handler := h |}.

End Sample.

(** ** Facts about insertion-ordered dictionaries *)
Module OrdDictFacts.
Import OrdDict.

Lemma get_set_eq {V} k (v : V) d : assoc k (set k v d) = Some v.
Proof.
  induction d as [|[k' v'] d IH]; simpl.
  - by rewrite decide_True.
  - destruct (decide (k' = k)) as [->|Hne]; simpl.
    + by rewrite decide_True.
    + by rewrite decide_False.
Qed.

Lemma get_set_ne {V} k k' (v : V) d :
  k ≠ k' → assoc k' (set k v d) = assoc k' d.
Proof.
  intros Hne. induction d as [|[k0 v0] d IH]; simpl.
  - by rewrite decide_False.
  - destruct (decide (k0 = k)) as [->|Hk]; simpl.
    + by rewrite !decide_False.
    + destruct (decide (k0 = k')); [done | apply IH].
Qed.

Lemma assoc_keys {V} k (d : list (string * V)) :
  is_Some (assoc k d) ↔ k ∈ keys d.
Proof.
  unfold keys. induction d as [|[k' v'] d IH]; simpl.
  - split; [intros [? ?]; done | intros H; inversion H].
  - destruct (decide (k' = k)) as [->|Hne].
    + split; [intros _; left | eauto].
    + rewrite IH. split; [by right |].
      intros H. inversion H; subst; [done | assumption].
Qed.

Lemma keys_set_in {V} k (v : V) d :
  k ∈ keys d → keys (set k v d) = keys d.
Proof.
  unfold keys. induction d as [|[k' v'] d IH]; simpl; intros Hin.
  - inversion Hin.
  - destruct (decide (k' = k)) as [->|Hne]; simpl; [done |].
    f_equal. apply IH. inversion Hin; subst; [done | assumption].
Qed.

Lemma keys_set_notin {V} k (v : V) d :
  k ∉ keys d → keys (set k v d) = keys d ++ [k].
Proof.
  unfold keys. induction d as [|[k' v'] d IH]; simpl; intros Hnin; [done |].
  destruct (decide (k' = k)) as [->|Hne]; simpl.
  - exfalso. apply Hnin. left.
  - f_equal. apply IH. intros Hin. apply Hnin. by right.
Qed.

Lemma keys_set_NoDup {V} k (v : V) d :
  NoDup (keys d) → NoDup (keys (set k v d)).
Proof.
  intros Hnd. destruct (decide (k ∈ keys d)) as [Hin|Hnin].
  - by rewrite keys_set_in.
  - rewrite keys_set_notin by done.
    apply NoDup_app. split_and!; [done | | apply NoDup_singleton].
    intros x Hx Hx'. apply list_elem_of_singleton in Hx'. by subst.
Qed.

End OrdDictFacts.

(** ** Basic facts about the monad *)

Lemma bind_Returned {A B} (m : M A) (k : A → M B) w b w' :
  bind m k w = Returned b w' ↔
  ∃ a w1, m w = Returned a w1 ∧ k a w1 = Returned b w'.
Proof.
  unfold bind. destruct (m w) as [a w1|e w1|w1]; split.
  - eauto.
  - by intros (? & ? & [= -> ->] & ?).
  - done.
  - by intros (? & ? & ? & ?).
  - done.
  - by intros (? & ? & ? & ?).
Qed.

Lemma bind_eq_Returned {A B} (m : M A) (k : A → M B) w a w1 :
  m w = Returned a w1 → bind m k w = k a w1.
Proof. unfold bind. by intros ->. Qed.

Lemma bind_eq_Raised {A B} (m : M A) (k : A → M B) w e w1 :
  m w = Raised e w1 → bind m k w = Raised e w1.
Proof. unfold bind. by intros ->. Qed.

Lemma bind_assoc {A B C} (m : M A) (k : A → M B) (h : B → M C) w :
  bind (bind m k) h w = bind m (fun a => bind (k a) h) w.
Proof. unfold bind. by destruct (m w). Qed.

Lemma bind_ext {A B} (m : M A) (k k' : A → M B) w :
  (∀ a w1, k a w1 = k' a w1) → bind m k w = bind m k' w.
Proof. intros H. unfold bind. by destruct (m w). Qed.

(** ** Capability discovery *)

Lemma decorator_frame_refl w : decorator_frame w w.
Proof. by repeat split. Qed.

Lemma decorator_frame_trans w1 w2 w3 :
  decorator_frame w1 w2 → decorator_frame w2 w3 → decorator_frame w1 w3.
Proof.
  intros (Ha & Hm & Hi) (Ha' & Hm' & Hi').
  repeat split; congruence.
Qed.

Lemma module_get_tool_registry_spec w :
  ∃ l w',
    ToolDecorator.get_tool_registry w = Returned l w' ∧
    decorator_frame w w' ∧
    _WORKFLOW_TOOL_REGISTRY w' !! instance_id w = Some l ∧
    store w' !!! l =
      match _WORKFLOW_TOOL_REGISTRY w !! instance_id w with
      | Some l0 => store w !!! l0
      | None => ToolRegistry.new
      end.
Proof.
  unfold ToolDecorator.get_tool_registry.
  destruct (_WORKFLOW_TOOL_REGISTRY w !! instance_id w) as [l0|] eqn:Hl.
  - exists l0, w. split_and!; [done | apply decorator_frame_refl | done | done].
  - eexists _, _. split_and!; [done | by repeat split | | ]; simpl.
    + apply lookup_insert_eq.
    + apply lookup_total_insert_eq.
Qed.

(** One iteration of the scan loop, in closed form. *)
Lemma scan_eq l m w :
  ToolDecorator.scan l m w =
  match m.2 with
  | Throws e => if is_Exception e then Returned tt w else Raised e w
  | Gives _ =>
      Returned tt
        match discovered m with
        | Some entry =>
            with_store
              (<[l := register_entry (store w !!! l) entry]> (store w)) w
        | None => w
        end
  end.
Proof.
  destruct m as [n [[c tn te h]|e]]; unfold ToolDecorator.scan, discovered;
    simpl.
  - destruct c, tn as [tn|], te as [te|]; reflexivity.
  - unfold try_, bind, raise, except_Exception, ret.
    by destruct (is_Exception e).
Qed.

Lemma for_each_scan_cases l ms w :
  (∃ w', for_each (ToolDecorator.scan l) ms w = Returned tt w' ∧
         decorator_frame w w' ∧
         _WORKFLOW_TOOL_REGISTRY w' = _WORKFLOW_TOOL_REGISTRY w ∧
         store w' !!! l =
           foldl register_entry (store w !!! l) (omap discovered ms)) ∨
  (∃ e w', for_each (ToolDecorator.scan l) ms w = Raised e w' ∧
           is_Exception e = false ∧ decorator_frame w w' ∧
           ∃ name, (name, Throws e) ∈ ms).
Proof.
  revert w. induction ms as [|m ms IH]; intros w; simpl.
  - left. exists w. split_and!; [done | apply decorator_frame_refl | done | done].
  - pose proof (scan_eq l m w) as Hscan.
    destruct m as [n [v|e]]; simpl in Hscan.
    + set (w1 := match discovered (n, Gives v) with
                 | Some entry => _ | None => w end) in Hscan.
      rewrite !(bind_eq_Returned _ _ _ _ _ Hscan).
      assert (decorator_frame w w1 ∧
              _WORKFLOW_TOOL_REGISTRY w1 = _WORKFLOW_TOOL_REGISTRY w ∧
              store w1 !!! l =
                foldl register_entry (store w !!! l)
                  (option_list (discovered (n, Gives v)))) as (Hf & Ht & Hs).
      { subst w1. destruct (discovered (n, Gives v)) as [entry|]; simpl.
        - split_and!; [by repeat split | done | apply lookup_total_insert_eq].
        - split_and!; [apply decorator_frame_refl | done | done]. }
      destruct (IH w1) as [(w' & Hrun & Hf' & Ht' & Hs')
                          |(e & w' & Hrun & He & Hf' & name & Hin)].
      * left. exists w'.
        split_and!; [done | by eapply decorator_frame_trans | congruence |].
        rewrite Hs', Hs.
        destruct (discovered (n, Gives v)); reflexivity.
      * right. exists e, w'.
        split_and!; [done | done | by eapply decorator_frame_trans |].
        exists name. by right.
    + destruct (is_Exception e) eqn:He.
      * rewrite !(bind_eq_Returned _ _ _ _ _ Hscan).
        destruct (IH w) as [(w' & Hrun & Hf' & Ht' & Hs')
                           |(e' & w' & Hrun & He' & Hf' & name & Hin)].
        -- left. exists w'. by split_and!.
        -- right. exists e', w'. split_and!; [done | done | done |].
           exists name. by right.
      * rewrite !(bind_eq_Raised _ _ _ _ _ Hscan).
        right. exists e, w.
        split_and!; [done | done | apply decorator_frame_refl |].
        exists n. left.
Qed.

Lemma register_tool_handlers_cases w :
  (∃ l w', ToolDecorator.register_tool_handlers w = Returned l w' ∧
           decorator_frame w w' ∧
           _WORKFLOW_TOOL_REGISTRY w' !! instance_id w = Some l ∧
           store w' !!! l =
             foldl register_entry
               match _WORKFLOW_TOOL_REGISTRY w !! instance_id w with
               | Some l0 => store w !!! l0
               | None => ToolRegistry.new
               end
               (omap discovered (members w))) ∨
  (∃ e w', ToolDecorator.register_tool_handlers w = Raised e w' ∧
           is_Exception e = false ∧ decorator_frame w w' ∧
           ∃ name, (name, Throws e) ∈ members w).
Proof.
  destruct (module_get_tool_registry_spec w) as (l & w0 & Hget & Hf0 & Ht0 & Hs0).
  assert (ToolDecorator.register_tool_handlers w =
          (for_each (ToolDecorator.scan l) (members w0) ;; ret l) w0) as ->.
  { unfold ToolDecorator.register_tool_handlers.
    by rewrite (bind_eq_Returned _ _ _ _ _ Hget). }
  destruct (for_each_scan_cases l (members w0) w0)
    as [(w' & Hrun & Hf & Ht & Hs)|(e & w' & Hrun & He & Hf & name & Hin)].
  - left. exists l, w'. rewrite (bind_eq_Returned _ _ _ _ _ Hrun).
    destruct Hf0 as (Ha0 & Hm0 & Hi0).
    split_and!; [done | by eapply decorator_frame_trans | congruence |].
    by rewrite Hs, Hs0, Hm0.
  - right. exists e, w'. rewrite (bind_eq_Raised _ _ _ _ _ Hrun).
    destruct Hf0 as (Ha0 & Hm0 & Hi0).
    split_and!; [done | done | by eapply decorator_frame_trans |].
    exists name. by rewrite <- Hm0.
Qed.

(** ** The receiver: lazy initialisation *)

(** Symbolic execution of the straight-line parts of a method. *)
Ltac reduce_world :=
  cbn [attrs store members instance_id _WORKFLOW_TOOL_REGISTRY
       with_attrs with_store with_table
       set_claude_messages set_claude_outgoing set_claude_message_event
       set_pending_tool_requests set_tool_results set_tool_request_event
       set_tool_result_events set_tool_registry
       _claude_messages _claude_outgoing _claude_message_event
       _pending_tool_requests _tool_results _tool_request_event
       _tool_result_events _tool_registry
       Event.new Event.set Event.clear Event.is_set is_Exception fst snd].

Ltac run :=
  unfold bind, ret, raise, lift, getattr, setattr, hasattr, modify, get_world,
    await_event, wait_for_event, try_, or_except, except_ToolDenied,
    except_TimeoutError, except_Exception, ToolDecorator.registry_get;
  reduce_world.

Lemma with_attrs_id w : with_attrs (attrs w) w = w.
Proof. by destruct w. Qed.

Lemma initialized_not_uninitialized a : initialized a → ¬ uninitialized a.
Proof. intros ([? H] & _) (H' & _). congruence. Qed.

Lemma init_attrs_initialized r : initialized (init_attrs r).
Proof. unfold initialized, init_attrs; simpl. by split_and!. Qed.

(** [init_claude_receiver] assigns the seven data attributes, then runs
    discovery; it ends either normally with [_tool_registry] assigned or
    with an exception of discovery that is not an [Exception]. *)
Lemma init_claude_receiver_cases w :
  (∃ l w', ClaudeMessageReceiver.init_claude_receiver w = Returned tt w' ∧
           attrs w' = init_attrs (Some l) ∧
           members w' = members w ∧ instance_id w' = instance_id w) ∨
  (∃ e w', ClaudeMessageReceiver.init_claude_receiver w = Raised e w' ∧
           is_Exception e = false ∧
           attrs w' = init_attrs (_tool_registry (attrs w)) ∧
           members w' = members w ∧ instance_id w' = instance_id w ∧
           ∃ name, (name, Throws e) ∈ members w).
Proof.
  set (w7 := with_attrs (init_attrs (_tool_registry (attrs w))) w).
  assert (ClaudeMessageReceiver.init_claude_receiver w =
          (registry <- ToolDecorator.register_tool_handlers ;;
           setattr (set_tool_registry registry)) w7) as -> by reflexivity.
  destruct (register_tool_handlers_cases w7)
    as [(l & w' & Hrun & (Ha & Hm & Hi) & _)
       |(e & w' & Hrun & He & (Ha & Hm & Hi) & Hin)].
  - left. exists l. eexists. rewrite (bind_eq_Returned _ _ _ _ _ Hrun).
    split_and!; [reflexivity | | done | done].
    reduce_world. by rewrite Ha.
  - right. exists e, w'. rewrite (bind_eq_Raised _ _ _ _ _ Hrun).
    by split_and!.
Qed.

Lemma init_unless_hasattr_present {A} (field : Attrs → option A) w :
  is_Some (field (attrs w)) →
  ClaudeMessageReceiver.init_unless_hasattr field w = Returned tt w.
Proof.
  intros H. unfold ClaudeMessageReceiver.init_unless_hasattr. run.
  by rewrite bool_decide_eq_true_2.
Qed.

Lemma init_unless_hasattr_absent {A} (field : Attrs → option A) w :
  field (attrs w) = None →
  ClaudeMessageReceiver.init_unless_hasattr field w =
  ClaudeMessageReceiver.init_claude_receiver w.
Proof.
  intros H. unfold ClaudeMessageReceiver.init_unless_hasattr. run.
  rewrite bool_decide_eq_false_2; [done |].
  rewrite H. by intros [? ?].
Qed.

(** After the lazy check has passed, a coherent instance is initialised. *)
Lemma init_unless_hasattr_initialized {A} (field : Attrs → option A) w w1 :
  (∀ a, uninitialized a → field a = None) →
  coherent (attrs w) →
  ClaudeMessageReceiver.init_unless_hasattr field w = Returned tt w1 →
  initialized (attrs w1) ∧
  members w1 = members w ∧ instance_id w1 = instance_id w.
Proof.
  intros Hfield Hco Hrun.
  destruct (field (attrs w)) as [x|] eqn:Hx.
  - rewrite init_unless_hasattr_present in Hrun by (rewrite Hx; eauto).
    injection Hrun as <-. split; [|done].
    destruct Hco as [Hi|Hu]; [done |].
    apply Hfield in Hu. congruence.
  - rewrite init_unless_hasattr_absent in Hrun by done.
    destruct (init_claude_receiver_cases w)
      as [(l & w' & Hrun' & Ha & Hm & Hi)|(e & w' & Hrun' & _)];
      rewrite Hrun' in Hrun; [|done].
    injection Hrun as <-. rewrite Ha. split; [apply init_attrs_initialized | done].
Qed.

Lemma set_tool_registry_id a l :
  _tool_registry a = Some l → set_tool_registry l a = a.
Proof. destruct a; simpl. by intros ->. Qed.

(** The method [get_tool_registry]: at most [_tool_registry] is assigned. *)
Lemma receiver_get_tool_registry_cases w :
  (∃ l w', ClaudeMessageReceiver.get_tool_registry w = Returned l w' ∧
           attrs w' = set_tool_registry l (attrs w) ∧
           members w' = members w ∧ instance_id w' = instance_id w) ∨
  (∃ e w', ClaudeMessageReceiver.get_tool_registry w = Raised e w' ∧
           is_Exception e = false ∧ decorator_frame w w').
Proof.
  unfold ClaudeMessageReceiver.get_tool_registry. run.
  destruct (_tool_registry (attrs w)) as [l|] eqn:Hl.
  - left. exists l, w. rewrite bool_decide_eq_true_2 by eauto.
    rewrite Hl.
    split_and!; [done | by rewrite set_tool_registry_id | done | done].
  - rewrite bool_decide_eq_false_2 by (by intros [? ?]).
    destruct (register_tool_handlers_cases w)
      as [(l & w' & Hrun & (Ha & Hm & Hi) & _)|(e & w' & Hrun & He & Hf & _)];
      rewrite Hrun; reduce_world.
    + left. exists l. eexists.
      split_and!; [reflexivity | | done | done].
      reduce_world. by rewrite Ha.
    + right. by exists e, w'.
Qed.

Lemma receiver_get_tool_registry_present w l :
  _tool_registry (attrs w) = Some l →
  ClaudeMessageReceiver.get_tool_registry w = Returned l w.
Proof.
  intros Hl. unfold ClaudeMessageReceiver.get_tool_registry. run.
  rewrite bool_decide_eq_true_2 by (rewrite Hl; eauto).
  by rewrite Hl.
Qed.

(** ** The receiver: tool execution *)

Lemma request_tool_execution_phases d w :
  ClaudeMessageReceiver.request_tool_execution d w =
  (rh <- ClaudeMessageReceiver.accept d ;;
   result <- ClaudeMessageReceiver.dispatch rh.1 rh.2 ;;
   ClaudeMessageReceiver.resolve rh.1 result) w.
Proof.
  unfold ClaudeMessageReceiver.request_tool_execution,
    ClaudeMessageReceiver.accept.
  rewrite bind_assoc. apply bind_ext. intros _ w1.
  rewrite bind_assoc. apply bind_ext. intros req w2.
  rewrite bind_assoc. apply bind_ext. intros evs w3.
  rewrite bind_assoc. apply bind_ext. intros _ w4.
  rewrite bind_assoc. apply bind_ext. intros reg w5.
  rewrite bind_assoc. apply bind_ext. intros h w6.
  reflexivity.
Qed.

(** What holds once a request has been accepted and its handler looked up. *)
Lemma accept_post d w req h w1 :
  coherent (attrs w) →
  ClaudeMessageReceiver.accept d w = Returned (req, h) w1 →
  ToolRequest.model_validate d = Returns req ∧
  ∃ rs evs l,
    _tool_results (attrs w1) = Some rs ∧
    _tool_result_events (attrs w1) = Some evs ∧
    evs !! ToolRequest.tool_id req = Some Event.new ∧
    _tool_registry (attrs w1) = Some l ∧
    h = ToolRegistry.get (ToolRequest.tool_name req) (store w1 !!! l).
Proof.
  intros Hco Hrun. unfold ClaudeMessageReceiver.accept in Hrun.
  apply bind_Returned in Hrun as ([] & wa & Hinit & Hrun).
  apply init_unless_hasattr_initialized in Hinit as (Hini & _);
    [| by intros a (? & ? & ? & ? & ?) | done].
  apply bind_Returned in Hrun as (req' & wb & Hval & Hrun).
  unfold lift in Hval.
  destruct (ToolRequest.model_validate d) as [r|] eqn:Hv; [|done].
  injection Hval as -> ->.
  apply bind_Returned in Hrun as (evs & wc & Hev & Hrun).
  unfold getattr in Hev.
  destruct (_tool_result_events (attrs wb)) as [evs0|] eqn:He; [|done].
  injection Hev as -> ->.
  apply bind_Returned in Hrun as ([] & wd & Hset & Hrun).
  injection Hset as <-.
  apply bind_Returned in Hrun as (l & we & Hreg & Hrun).
  apply bind_Returned in Hrun as (h' & wf & Hget & Hrun).
  injection Hget as <- <-. injection Hrun as <- <- <-.
  destruct (receiver_get_tool_registry_cases
              (with_attrs
                 (set_tool_result_events
                    (<[ToolRequest.tool_id req' := Event.new]> evs)
                    (attrs wc)) wc))
    as [(l' & w' & Hrun' & Ha & _)|(e & w' & Hrun' & _)];
    rewrite Hrun' in Hreg; [|done].
  injection Hreg as <- <-.
  split; [done |].
  destruct Hini as (_ & _ & _ & _ & [rs Hrs] & _).
  exists rs, (<[ToolRequest.tool_id req' := Event.new]> evs), l'.
  rewrite Ha. reduce_world.
  split_and!; [done | done | apply lookup_insert_eq | done | done].
Qed.

Lemma resolve_eq req result w rs evs e :
  _tool_results (attrs w) = Some rs →
  _tool_result_events (attrs w) = Some evs →
  evs !! ToolRequest.tool_id req = Some e →
  ClaudeMessageReceiver.resolve req result w =
  Returned tt
    (with_attrs
       (set_tool_result_events (<[ToolRequest.tool_id req := Event.set e]> evs)
          (set_tool_results (<[ToolRequest.tool_id req := result]> rs)
             (attrs w))) w).
Proof.
  intros Hrs Hevs He. unfold ClaudeMessageReceiver.resolve. run.
  by rewrite Hrs, Hevs, He.
Qed.

(** A handler that returns, is denied, or fails with an [Exception] yields a
    result and leaves the world alone; any other exception propagates. *)
Lemma dispatch_eq req h w :
  ClaudeMessageReceiver.dispatch req (Some h) w =
  match ToolHandler.handler h (ToolRequest.tool_id req) (ToolRequest.input req) with
  | Returns output =>
      Returned (ClaudeMessageReceiver.success_result (ToolRequest.tool_id req) output) w
  | Raises (ToolDenied message interrupt) =>
      Returned (ClaudeMessageReceiver.failure_result
                  (ToolRequest.tool_id req) message interrupt) w
  | Raises e =>
      if is_Exception e
      then Returned (ClaudeMessageReceiver.failure_result
                       (ToolRequest.tool_id req) (str e) false) w
      else Raised e w
  end.
Proof.
  unfold ClaudeMessageReceiver.dispatch. run.
  destruct (ToolHandler.handler h _ _) as [out|[]]; reflexivity.
Qed.

(** [get_tool_result] when the event of the id, if there is one, is set:
    the stored result (or the not-found result) is returned and both entries
    are removed. *)
Lemma get_tool_result_ready tool_id w rs evs :
  _tool_results (attrs w) = Some rs →
  _tool_result_events (attrs w) = Some evs →
  evs !! tool_id ≠ Some false →
  ClaudeMessageReceiver.get_tool_result tool_id w =
  Returned (default (ClaudeMessageReceiver.not_found_result tool_id)
              (rs !! tool_id))
    (with_attrs
       (set_tool_result_events (delete tool_id evs)
          (set_tool_results (delete tool_id rs) (attrs w))) w).
Proof.
  intros Hrs Hevs Hset. unfold ClaudeMessageReceiver.get_tool_result.
  rewrite (bind_eq_Returned _ _ _ _ _
             (init_unless_hasattr_present _tool_results w
                ltac:(rewrite Hrs; eauto))).
  run. rewrite Hevs.
  destruct (evs !! tool_id) as [[|]|] eqn:He; [| done |]; reduce_world;
    rewrite Hrs; reduce_world; rewrite Hevs; reduce_world; rewrite He.
  - rewrite bool_decide_eq_true_2 by eauto.
    by destruct (rs !! tool_id).
  - rewrite bool_decide_eq_false_2 by (by intros [? ?]).
    rewrite (delete_id evs) by done.
    replace (set_tool_result_events evs
               (set_tool_results (delete tool_id rs) (attrs w)))
      with (set_tool_results (delete tool_id rs) (attrs w))
      by (revert Hevs; destruct (attrs w); simpl; intros ->; reflexivity).
    by destruct (rs !! tool_id).
Qed.

(** ... and when that event is not set yet: the caller stays suspended. *)
Lemma get_tool_result_pending tool_id w evs :
  is_Some (_tool_results (attrs w)) →
  _tool_result_events (attrs w) = Some evs →
  evs !! tool_id = Some false →
  ClaudeMessageReceiver.get_tool_result tool_id w = Suspended w.
Proof.
  intros Hrs Hevs He. unfold ClaudeMessageReceiver.get_tool_result.
  rewrite (bind_eq_Returned _ _ _ _ _
             (init_unless_hasattr_present _tool_results w Hrs)).
  run. by rewrite Hevs, He.
Qed.

(** With neither an event nor a result for the id, nothing changes. *)
Lemma get_tool_result_not_found tool_id w rs evs :
  _tool_results (attrs w) = Some rs →
  _tool_result_events (attrs w) = Some evs →
  rs !! tool_id = None →
  evs !! tool_id = None →
  ClaudeMessageReceiver.get_tool_result tool_id w =
  Returned (ClaudeMessageReceiver.not_found_result tool_id) w.
Proof.
  intros Hrs Hevs Hr He.
  rewrite (get_tool_result_ready tool_id w rs evs Hrs Hevs) by congruence.
  rewrite Hr, !delete_id by done.
  destruct w as [i ms a st tb]; destruct a; simpl in *. by subst.
Qed.

(** Whatever a returning [get_tool_result] delivered, the id is gone
    afterwards. *)
Lemma get_tool_result_consumes tool_id w r w' :
  coherent (attrs w) →
  ClaudeMessageReceiver.get_tool_result tool_id w = Returned r w' →
  ∃ rs evs,
    _tool_results (attrs w') = Some rs ∧
    _tool_result_events (attrs w') = Some evs ∧
    rs !! tool_id = None ∧ evs !! tool_id = None.
Proof.
  intros Hco Hrun. unfold ClaudeMessageReceiver.get_tool_result in Hrun.
  apply bind_Returned in Hrun as ([] & wa & Hinit & Hrun).
  apply init_unless_hasattr_initialized in Hinit as (Hini & _);
    [| by intros a (? & ? & ? & ? & ? & ?) | done].
  destruct Hini as (_ & _ & _ & _ & [rs Hrs] & _ & [evs Hevs]).
  assert (ClaudeMessageReceiver.get_tool_result tool_id wa = Returned r w')
    as Hrun'.
  { unfold ClaudeMessageReceiver.get_tool_result.
    by rewrite (bind_eq_Returned _ _ _ _ _
                  (init_unless_hasattr_present _tool_results wa
                     ltac:(rewrite Hrs; eauto))). }
  destruct (decide (evs !! tool_id = Some false)) as [He|He].
  - rewrite (get_tool_result_pending tool_id wa evs) in Hrun'; [done | | done..].
    rewrite Hrs; eauto.
  - rewrite (get_tool_result_ready tool_id wa rs evs) in Hrun' by done.
    injection Hrun' as _ <-.
    exists (delete tool_id rs), (delete tool_id evs). reduce_world.
    split_and!; [done | done | apply lookup_delete_eq..].
Qed.

Lemma stored_result_Some tool_id w r :
  stored_result tool_id w = Some r ↔
  ∃ rs, _tool_results (attrs w) = Some rs ∧ rs !! tool_id = Some r.
Proof. unfold stored_result. apply bind_Some. Qed.

Lemma result_event_Some tool_id w e :
  result_event tool_id w = Some e ↔
  ∃ evs, _tool_result_events (attrs w) = Some evs ∧ evs !! tool_id = Some e.
Proof. unfold result_event. apply bind_Some. Qed.

(** Accept, Dispatch, Resolve: when the handler's outcome becomes a result,
    that result is stored under the id and the id's event is set. *)
Lemma request_tool_execution_stores d w req h w1 result :
  coherent (attrs w) →
  ClaudeMessageReceiver.accept d w = Returned (req, h) w1 →
  ClaudeMessageReceiver.dispatch req h w1 = Returned result w1 →
  ∃ w2,
    ClaudeMessageReceiver.request_tool_execution d w = Returned tt w2 ∧
    stored_result (ToolRequest.tool_id req) w2 = Some result ∧
    result_event (ToolRequest.tool_id req) w2 = Some true ∧
    store w2 = store w1 ∧ _tool_registry (attrs w2) = _tool_registry (attrs w1).
Proof.
  intros Hco Hacc Hdis.
  destruct (accept_post d w req h w1 Hco Hacc)
    as (_ & rs & evs & l & Hrs & Hevs & He & _).
  eexists. rewrite request_tool_execution_phases.
  rewrite (bind_eq_Returned _ _ _ _ _ Hacc). simpl fst; simpl snd.
  rewrite (bind_eq_Returned _ _ _ _ _ Hdis).
  rewrite (resolve_eq req result w1 rs evs _ Hrs Hevs He).
  split_and!; [reflexivity | | | done | done].
  - apply stored_result_Some. eexists. reduce_world.
    split; [reflexivity | apply lookup_insert_eq].
  - apply result_event_Some. eexists. reduce_world.
    split; [reflexivity | apply lookup_insert_eq].
Qed.

(** A stored result whose event is set is handed over and both entries are
    removed. *)
Lemma get_tool_result_delivers tool_id w r :
  stored_result tool_id w = Some r →
  result_event tool_id w = Some true →
  ∃ w',
    ClaudeMessageReceiver.get_tool_result tool_id w = Returned r w' ∧
    stored_result tool_id w' = None ∧ result_event tool_id w' = None ∧
    ClaudeMessageReceiver.get_tool_result tool_id w' =
      Returned (ClaudeMessageReceiver.not_found_result tool_id) w'.
Proof.
  intros (rs & Hrs & Hr)%stored_result_Some (evs & Hevs & He)%result_event_Some.
  eexists.
  rewrite (get_tool_result_ready tool_id w rs evs Hrs Hevs) by congruence.
  rewrite Hr.
  split_and!; [reflexivity | | |].
  - unfold stored_result. reduce_world. apply lookup_delete_eq.
  - unfold result_event. reduce_world. apply lookup_delete_eq.
  - eapply get_tool_result_not_found; reduce_world;
      [reflexivity | reflexivity | apply lookup_delete_eq..].
Qed.

(** ** Tool results: delivery, lookup failures, registration *)



(** A method that starts with the lazy check does, from a world in which
    the check ran [init_claude_receiver], what it does from the world the
    check leaves behind. *)
Lemma lazy_check_absorb {A B} (field : Attrs → option A) (k : M B) w w0 :
  ClaudeMessageReceiver.init_unless_hasattr field w = Returned tt w0 →
  is_Some (field (attrs w0)) →
  (ClaudeMessageReceiver.init_unless_hasattr field ;; k) w =
  (ClaudeMessageReceiver.init_unless_hasattr field ;; k) w0.
Proof.
  intros Hrun Hsome.
  rewrite (bind_eq_Returned _ _ _ _ _ Hrun).
  by rewrite (bind_eq_Returned _ _ _ _ _
                (init_unless_hasattr_present field w0 Hsome)).
Qed.

(** C2.  For every correlation id that has neither a per-id event nor a
    stored result, [get_tool_result] returns the failure result with error
    "Tool result not found" without suspending: it returns from the world
    its lazy initialisation check leaves behind (the world itself once the
    receiver is initialised), changing nothing else.  This covers an id
    that was never accepted, and the id of any earlier [get_tool_result]
    call that returned, which is always left with neither entry. *)
Theorem get_tool_result_unknown_id_not_found :
  (∀ tool_id w w0,
     coherent (attrs w) →
     stored_result tool_id w = None →
     result_event tool_id w = None →
     ClaudeMessageReceiver.init_unless_hasattr _tool_results w = Returned tt w0 →
     ClaudeMessageReceiver.get_tool_result tool_id w =
       Returned {| ToolResult.tool_id := tool_id; ToolResult.success := false;
                   ToolResult.result := None;
                   ToolResult.error := Some "Tool result not found";
                   ToolResult.interrupt := false |} w0) ∧
  (∀ tool_id w r w',
     coherent (attrs w) →
     ClaudeMessageReceiver.get_tool_result tool_id w = Returned r w' →
     stored_result tool_id w' = None ∧ result_event tool_id w' = None ∧
     ClaudeMessageReceiver.get_tool_result tool_id w' =
       Returned (ClaudeMessageReceiver.not_found_result tool_id) w').
Proof.
  split.
  - intros tool_id w w0 Hco Hnr Hne Hinit.
    destruct (init_unless_hasattr_initialized _tool_results w w0) as (Hini & _);
      [by intros a (? & ? & ? & ? & ? & ?) | done | done |].
    destruct Hini as (_ & _ & _ & _ & [rs Hrs] & _ & [evs Hevs]).
    unfold ClaudeMessageReceiver.get_tool_result.
    rewrite (lazy_check_absorb _tool_results _ w w0 Hinit)
      by (rewrite Hrs; eauto).
    apply (get_tool_result_not_found tool_id w0 rs evs Hrs Hevs).
    + destruct (_tool_results (attrs w)) as [rs0|] eqn:Hrs0.
      * rewrite init_unless_hasattr_present in Hinit by (rewrite Hrs0; eauto).
        injection Hinit as <-. unfold stored_result in Hnr.
        rewrite Hrs0 in Hnr, Hrs. simpl in Hnr. congruence.
      * rewrite init_unless_hasattr_absent in Hinit by done.
        destruct (init_claude_receiver_cases w)
          as [(l & w' & Hrun' & Ha & _)|(e & w' & Hrun' & _)];
          rewrite Hrun' in Hinit; [|done].
        injection Hinit as <-. rewrite Ha in Hrs. injection Hrs as <-.
        apply lookup_empty.
    + destruct (_tool_results (attrs w)) as [rs0|] eqn:Hrs0.
      * rewrite init_unless_hasattr_present in Hinit by (rewrite Hrs0; eauto).
        injection Hinit as <-. unfold result_event in Hne.
        rewrite Hevs in Hne. simpl in Hne. congruence.
      * rewrite init_unless_hasattr_absent in Hinit by done.
        destruct (init_claude_receiver_cases w)
          as [(l & w' & Hrun' & Ha & _)|(e & w' & Hrun' & _)];
          rewrite Hrun' in Hinit; [|done].
        injection Hinit as <-. rewrite Ha in Hevs. injection Hevs as <-.
        apply lookup_empty.
  - intros tool_id w r w' Hco Hrun.
    destruct (get_tool_result_consumes tool_id w r w' Hco Hrun)
      as (rs & evs & Hrs & Hevs & Hr & He).
    split_and!.
    + unfold stored_result. by rewrite Hrs.
    + unfold result_event. by rewrite Hevs.
    + by apply (get_tool_result_not_found tool_id w' rs evs).
Qed.

Lemma get_tool_result_unknown_id_not_found_witness :
  (∃ w0,
     ClaudeMessageReceiver.init_claude_receiver Sample.new_instance
       = Returned tt w0 ∧
     ClaudeMessageReceiver.get_tool_result "never-accepted" Sample.new_instance
       = Returned (ClaudeMessageReceiver.not_found_result "never-accepted") w0 ∧
     ClaudeMessageReceiver.get_tool_result "never-accepted" w0
       = Returned (ClaudeMessageReceiver.not_found_result "never-accepted") w0).
Proof.
  eexists. split; [vm_compute; reflexivity |].
  split.
  - apply (proj1 get_tool_result_unknown_id_not_found).
    + right. by repeat split.
    + reflexivity.
    + reflexivity.
    + vm_compute. reflexivity.
  - eapply (proj2 get_tool_result_unknown_id_not_found
              "never-accepted" Sample.new_instance).
    + right. by repeat split.
    + vm_compute. reflexivity.
Defined.

(** C3, as the code has it.  Once [_tool_registry] is assigned on the
    instance, [get_registered_tools] changes nothing at all (no instance
    attribute, no registry object, no entry of the module table) and returns
    the keys of the registry's [handlers], which are exactly the names for
    which [has] is true. *)
Theorem get_registered_tools_pure_once_registered w l :
  _tool_registry (attrs w) = Some l →
  ClaudeMessageReceiver.get_registered_tools w =
    Returned (OrdDict.keys (ToolRegistry.handlers (store w !!! l))) w ∧
  ∀ name,
    name ∈ OrdDict.keys (ToolRegistry.handlers (store w !!! l)) ↔
    ToolRegistry.has name (store w !!! l) = true.
Proof.
  intros Hl. split.
  - unfold ClaudeMessageReceiver.get_registered_tools.
    by rewrite (bind_eq_Returned _ _ _ _ _
                  (receiver_get_tool_registry_present w l Hl)).
  - intros name. unfold ToolRegistry.has, OrdDict.mem.
    rewrite bool_decide_eq_true. symmetry. apply OrdDictFacts.assoc_keys.
Qed.

Lemma get_registered_tools_pure_once_registered_witness :
  ClaudeMessageReceiver.get_registered_tools Sample.started =
    Returned ["Bash"; "Echo"; "Fetch"; "Write"] Sample.started.
Proof.
  refine (proj1 (get_registered_tools_pure_once_registered
                   Sample.started 1%positive _)).
  vm_compute. reflexivity.
Defined.

(** C3, as stated, fails on an instance that has no [_tool_registry] yet:
    the query runs discovery, creates the registry object and the table
    entry, and assigns the attribute. *)
Lemma get_registered_tools_changes_new_instance :
  ∃ w',
    ClaudeMessageReceiver.get_registered_tools Sample.new_instance =
      Returned ["Bash"; "Echo"; "Fetch"; "Write"] w' ∧
    _tool_registry (attrs Sample.new_instance) = None ∧
    _tool_registry (attrs w') = Some 1%positive ∧
    _WORKFLOW_TOOL_REGISTRY Sample.new_instance !! 140%Z = None ∧
    _WORKFLOW_TOOL_REGISTRY w' !! 140%Z = Some 1%positive ∧
    store Sample.new_instance !! 1%positive = None ∧
    ToolRegistry.has "Echo" <$> store w' !! 1%positive = Some true ∧
    w' ≠ Sample.new_instance.
Proof.
  eexists. split; [vm_compute; reflexivity |].
  split_and!; try (vm_compute; reflexivity).
  intros Heq. apply (f_equal (fun w => _tool_registry (attrs w))) in Heq.
  vm_compute in Heq. discriminate.
Qed.

(** C4, as the code has it.  When the handler raises an exception that is an
    instance of [Exception] other than ToolDenied, [request_tool_execution]
    completes normally and stores a result with success=false, error equal
    to the stringified exception and interrupt=false, and sets the id's
    event. *)
Theorem handler_Exception_becomes_failure_result d w req h e w1 :
  coherent (attrs w) →
  ClaudeMessageReceiver.accept d w = Returned (req, Some h) w1 →
  ToolHandler.handler h (ToolRequest.tool_id req) (ToolRequest.input req)
    = Raises e →
  (∀ message interrupt, e ≠ ToolDenied message interrupt) →
  is_Exception e = true →
  let tool_id := ToolRequest.tool_id req in
  ∃ w2,
    ClaudeMessageReceiver.request_tool_execution d w = Returned tt w2 ∧
    stored_result tool_id w2 =
      Some {| ToolResult.tool_id := tool_id; ToolResult.success := false;
              ToolResult.result := None; ToolResult.error := Some (str e);
              ToolResult.interrupt := false |} ∧
    result_event tool_id w2 = Some true.
Proof.
  intros Hco Hacc Hh Hnd He tool_id.
  destruct (request_tool_execution_stores d w req (Some h) w1
              (ClaudeMessageReceiver.failure_result tool_id (str e) false)
              Hco Hacc)
    as (w2 & Hrun & Hres & Hev & _).
  { rewrite dispatch_eq, Hh.
    destruct e; try reflexivity; [by destruct (Hnd message interrupt) | done]. }
  by exists w2.
Qed.

Lemma handler_Exception_becomes_failure_result_witness :
  ∃ w2,
    ClaudeMessageReceiver.request_tool_execution
      (Sample.request "t3" "Write" "notes.txt") Sample.started
      = Returned tt w2 ∧
    stored_result "t3" w2 =
      Some {| ToolResult.tool_id := "t3"; ToolResult.success := false;
              ToolResult.result := None; ToolResult.error := Some "boom";
              ToolResult.interrupt := false |} ∧
    result_event "t3" w2 = Some true.
Proof.
  eapply (handler_Exception_becomes_failure_result
            (Sample.request "t3" "Write" "notes.txt") Sample.started
            (Sample.tool_request "t3" "Write" "notes.txt")
            (Sample.entry "Write" activity Sample.faulty)
            (PyException "boom")).
  - left. unfold initialized. split_and!; vm_compute; eexists; reflexivity.
  - vm_compute. reflexivity.
  - reflexivity.
  - discriminate.
  - reflexivity.
Defined.

(** C4, as stated, fails for an exception that is not an instance of
    [Exception]: a handler that ends with asyncio.CancelledError makes
    [request_tool_execution] raise, no result is stored, the id's event
    stays unset and a later [get_tool_result] for the id stays suspended. *)
Lemma handler_BaseException_propagates :
  ∃ w',
    Sample.cancelled "t2" [("x", PyStr "https://example.org")]
      = Raises (PyBaseException "CancelledError") ∧
    ClaudeMessageReceiver.request_tool_execution
      (Sample.request "t2" "Fetch" "https://example.org") Sample.started
      = Raised (PyBaseException "CancelledError") w' ∧
    stored_result "t2" w' = None ∧
    result_event "t2" w' = Some false ∧
    ClaudeMessageReceiver.get_tool_result "t2" w' = Suspended w'.
Proof.
  eexists. split; [reflexivity |].
  split; [vm_compute; reflexivity |].
  split_and!; vm_compute; reflexivity.
Qed.

(** C5.  When the handler raises ToolDenied(message, interrupt), the stored
    result has success=false, error equal to the denial message and
    interrupt equal to the denial's flag (so interrupt=true is carried
    through), and the id's event is set. *)
Theorem tool_denied_becomes_failure_result d w req h message interrupt w1 :
  coherent (attrs w) →
  ClaudeMessageReceiver.accept d w = Returned (req, Some h) w1 →
  ToolHandler.handler h (ToolRequest.tool_id req) (ToolRequest.input req)
    = Raises (ToolDenied message interrupt) →
  let tool_id := ToolRequest.tool_id req in
  ∃ w2,
    ClaudeMessageReceiver.request_tool_execution d w = Returned tt w2 ∧
    stored_result tool_id w2 =
      Some {| ToolResult.tool_id := tool_id; ToolResult.success := false;
              ToolResult.result := None; ToolResult.error := Some message;
              ToolResult.interrupt := interrupt |} ∧
    result_event tool_id w2 = Some true.
Proof.
  intros Hco Hacc Hh tool_id.
  destruct (request_tool_execution_stores d w req (Some h) w1
              (ClaudeMessageReceiver.failure_result tool_id message interrupt)
              Hco Hacc)
    as (w2 & Hrun & Hres & Hev & _).
  { by rewrite dispatch_eq, Hh. }
  by exists w2.
Qed.

Lemma tool_denied_becomes_failure_result_witness :
  ∃ w2,
    ClaudeMessageReceiver.request_tool_execution
      (Sample.request "t4" "Bash" "rm -rf /") Sample.new_instance
      = Returned tt w2 ∧
    stored_result "t4" w2 =
      Some {| ToolResult.tool_id := "t4"; ToolResult.success := false;
              ToolResult.result := None;
              ToolResult.error := Some "Only echo commands are allowed";
              ToolResult.interrupt := true |} ∧
    result_event "t4" w2 = Some true.
Proof.
  eapply (tool_denied_becomes_failure_result
            (Sample.request "t4" "Bash" "rm -rf /") Sample.new_instance
            (Sample.tool_request "t4" "Bash" "rm -rf /")
            (Sample.entry "Bash" workflow Sample.only_echo)).
  - right. by repeat split.
  - vm_compute. reflexivity.
  - reflexivity.
Defined.

Lemma contains_suffix pre s : contains s (String.append pre s).
Proof.
  exists pre, EmptyString. f_equal.
  induction s as [|c s IH]; [done |].
  change (String c s = String c (String.append s EmptyString)). by f_equal.
Qed.

(** C6.  When the requested tool name has no entry in the instance's
    registry, the stored result has success=false and its error message is
    "No handler registered for tool: " followed by the requested name, so
    it contains that name. *)
Theorem no_handler_failure_names_tool d w req w1 :
  coherent (attrs w) →
  ClaudeMessageReceiver.accept d w = Returned (req, None) w1 →
  let tool_id := ToolRequest.tool_id req in
  ∃ w2 message,
    ClaudeMessageReceiver.request_tool_execution d w = Returned tt w2 ∧
    stored_result tool_id w2 =
      Some {| ToolResult.tool_id := tool_id; ToolResult.success := false;
              ToolResult.result := None; ToolResult.error := Some message;
              ToolResult.interrupt := false |} ∧
    message = String.append "No handler registered for tool: "
                (ToolRequest.tool_name req) ∧
    contains (ToolRequest.tool_name req) message ∧
    instance_registry w2 ≫= ToolRegistry.get (ToolRequest.tool_name req) = None.
Proof.
  intros Hco Hacc tool_id.
  destruct (accept_post d w req None w1 Hco Hacc)
    as (_ & _ & _ & l & _ & _ & _ & Hl & Hget).
  destruct (request_tool_execution_stores d w req None w1
              (ClaudeMessageReceiver.no_handler_result req) Hco Hacc)
    as (w2 & Hrun & Hres & Hev & Hst & Hreg).
  { reflexivity. }
  exists w2. eexists.
  split_and!; [done | exact Hres | reflexivity | apply contains_suffix |].
  unfold instance_registry. rewrite Hreg, Hl, Hst. simpl. done.
Qed.

Lemma no_handler_failure_names_tool_witness :
  ∃ w2,
    ClaudeMessageReceiver.request_tool_execution
      (Sample.request "t5" "Grep" "needle") Sample.new_instance
      = Returned tt w2 ∧
    stored_result "t5" w2 =
      Some {| ToolResult.tool_id := "t5"; ToolResult.success := false;
              ToolResult.result := None;
              ToolResult.error := Some "No handler registered for tool: Grep";
              ToolResult.interrupt := false |}.
Proof.
  edestruct (no_handler_failure_names_tool
               (Sample.request "t5" "Grep" "needle") Sample.new_instance
               (Sample.tool_request "t5" "Grep" "needle"))
    as (w2 & message & Hrun & Hres & -> & _).
  - right. by repeat split.
  - vm_compute. reflexivity.
  - by exists w2.
Defined.

(** Accept on an initialised instance that has its registry. *)
Lemma accept_ready d w req evs l :
  is_Some (_pending_tool_requests (attrs w)) →
  ToolRequest.model_validate d = Returns req →
  _tool_result_events (attrs w) = Some evs →
  _tool_registry (attrs w) = Some l →
  ClaudeMessageReceiver.accept d w =
  Returned (req, ToolRegistry.get (ToolRequest.tool_name req) (store w !!! l))
    (with_attrs
       (set_tool_result_events
          (<[ToolRequest.tool_id req := Event.new]> evs) (attrs w)) w).
Proof.
  intros Hp Hval Hevs Hl. unfold ClaudeMessageReceiver.accept.
  rewrite (bind_eq_Returned _ _ _ _ _
             (init_unless_hasattr_present _pending_tool_requests w Hp)).
  run. rewrite Hval, Hevs.
  rewrite (receiver_get_tool_registry_present _ l) by done.
  reflexivity.
Qed.

Lemma register_twice_get registry name h1 m1 h2 m2 :
  ToolRegistry.get name
    (ToolRegistry.register name h2 m2
       (ToolRegistry.register name h1 m1 registry)) =
  Some {| ToolHandler.tool_name := name; ToolHandler.execution := m2;
          ToolHandler.handler := h2 |}.
Proof.
  unfold ToolRegistry.get, ToolRegistry.register; simpl.
  apply OrdDictFacts.get_set_eq.
Qed.

(** C7.  Registration is last-writer-wins.  In every registry, after
    register(name, h1, m1) and then register(name, h2, m2), get(name) is the
    entry holding h2.  On an initialised instance whose registry received
    these two registrations, a request for that name is dispatched to that
    entry: whatever h1 does, when h2 returns [X] the stored result is the
    success result carrying [X]. *)
Theorem registration_last_writer_wins :
  (∀ registry name h1 m1 h2 m2,
     ToolRegistry.get name
       (ToolRegistry.register name h2 m2
          (ToolRegistry.register name h1 m1 registry)) =
     Some {| ToolHandler.tool_name := name; ToolHandler.execution := m2;
             ToolHandler.handler := h2 |}) ∧
  (∀ w l d req h1 m1 h2 m2 w',
     initialized (attrs w) →
     _tool_registry (attrs w) = Some l →
     ToolRequest.model_validate d = Returns req →
     let name := ToolRequest.tool_name req in
     let tool_id := ToolRequest.tool_id req in
     (ToolDecorator.registry_register l name h1 m1 ;;
      ToolDecorator.registry_register l name h2 m2) w = Returned tt w' →
     ∃ w1,
       ClaudeMessageReceiver.accept d w' =
         Returned (req, Some {| ToolHandler.tool_name := name;
                                ToolHandler.execution := m2;
                                ToolHandler.handler := h2 |}) w1 ∧
       ∀ X, h2 tool_id (ToolRequest.input req) = Returns X →
            ∃ w2,
              ClaudeMessageReceiver.request_tool_execution d w'
                = Returned tt w2 ∧
              stored_result tool_id w2 =
                Some (ClaudeMessageReceiver.success_result tool_id X)).
Proof.
  split; [apply register_twice_get |].
  intros w l d req h1 m1 h2 m2 w' Hini Hl Hval name tool_id Hreg.
  injection Hreg as <-.
  set (w' := with_store _ _).
  assert (attrs w' = attrs w) as Ha by reflexivity.
  assert (store w' !!! l =
          ToolRegistry.register name h2 m2
            (ToolRegistry.register name h1 m1 (store w !!! l))) as Hst.
  { subst w'. reduce_world. by rewrite !lookup_total_insert_eq. }
  assert (coherent (attrs w')) as Hco by (left; by rewrite Ha).
  destruct Hini as (_ & _ & _ & Hp & _ & _ & [evs Hevs]).
  pose proof (accept_ready d w' req evs l) as Hacc.
  rewrite Ha, Hst, register_twice_get in Hacc.
  specialize (Hacc Hp Hval Hevs Hl).
  eexists. split; [exact Hacc |].
  intros X HX.
  edestruct (request_tool_execution_stores d w' req) as (w2 & Hrun & Hres & _).
  - exact Hco.
  - exact Hacc.
  - rewrite dispatch_eq. simpl. fold tool_id. rewrite HX. reflexivity.
  - by exists w2.
Qed.

Lemma registration_last_writer_wins_witness :
  ∃ w' w2,
    (ToolDecorator.registry_register 1 "Echo" Sample.faulty activity ;;
     ToolDecorator.registry_register 1 "Echo" Sample.echo workflow)
      Sample.started = Returned tt w' ∧
    ClaudeMessageReceiver.request_tool_execution
      (Sample.request "t6" "Echo" "42") w' = Returned tt w2 ∧
    stored_result "t6" w2 =
      Some (ClaudeMessageReceiver.success_result "t6" "42").
Proof.
  eexists.
  edestruct (proj2 registration_last_writer_wins Sample.started 1%positive
               (Sample.request "t6" "Echo" "42")
               (Sample.tool_request "t6" "Echo" "42")
               Sample.faulty activity Sample.echo workflow)
    as (w1 & _ & Hrun).
  - unfold initialized. split_and!; vm_compute; eexists; reflexivity.
  - vm_compute. reflexivity.
  - reflexivity.
  - reflexivity.
  - destruct (Hrun "42" eq_refl) as (w2 & Hreq & Hres).
    exists w2. split_and!; [reflexivity | exact Hreq | exact Hres].
Defined.

(** ** The receiver: message buffers *)

Lemma receive_claude_message_ready message w buf ev :
  _claude_messages (attrs w) = Some buf →
  _claude_message_event (attrs w) = Some ev →
  ClaudeMessageReceiver.receive_claude_message message w =
  Returned tt
    (with_attrs
       (set_claude_message_event true
          (set_claude_messages (buf ++ [message]) (attrs w))) w).
Proof.
  intros Hbuf Hev. unfold ClaudeMessageReceiver.receive_claude_message.
  rewrite (bind_eq_Returned _ _ _ _ _
             (init_unless_hasattr_present _claude_messages w
                ltac:(rewrite Hbuf; eauto))).
  run. by rewrite Hbuf, Hev.
Qed.

(** [wait_for_claude_messages] returns the buffer and resets it when the
    event is set or the timeout given is not positive. *)
Lemma wait_for_claude_messages_ready timeout w buf ev :
  _claude_messages (attrs w) = Some buf →
  _claude_message_event (attrs w) = Some ev →
  ev = true ∨ (∃ t, timeout = Some t ∧ Qle_bool t 0 = true) →
  ClaudeMessageReceiver.wait_for_claude_messages timeout w =
  Returned buf
    (with_attrs
       (set_claude_message_event false
          (set_claude_messages [] (attrs w))) w).
Proof.
  intros Hbuf Hev Hset. unfold ClaudeMessageReceiver.wait_for_claude_messages.
  rewrite (bind_eq_Returned _ _ _ _ _
             (init_unless_hasattr_present _claude_messages w
                ltac:(rewrite Hbuf; eauto))).
  destruct timeout as [t|]; run; rewrite Hev; reduce_world.
  - destruct ev; reduce_world; [by rewrite Hbuf, Hev |].
    destruct Hset as [|(t' & [= <-] & ->)]; [done |].
    reduce_world. by rewrite Hbuf, Hev.
  - destruct Hset as [->|(t' & [=] & _)]. reduce_world. by rewrite Hbuf, Hev.
Qed.

(** With a positive timeout and the event not set the caller is parked. *)
Lemma wait_for_claude_messages_parked t w buf :
  _claude_messages (attrs w) = Some buf →
  _claude_message_event (attrs w) = Some false →
  Qle_bool t 0 = false →
  ClaudeMessageReceiver.wait_for_claude_messages (Some t) w = Suspended w.
Proof.
  intros Hbuf Hev Ht. unfold ClaudeMessageReceiver.wait_for_claude_messages.
  rewrite (bind_eq_Returned _ _ _ _ _
             (init_unless_hasattr_present _claude_messages w
                ltac:(rewrite Hbuf; eauto))).
  run. by rewrite Hev, Ht.
Qed.

(** ... and with no timeout and the event not set it stays suspended. *)
Lemma wait_for_claude_messages_blocks w buf :
  _claude_messages (attrs w) = Some buf →
  _claude_message_event (attrs w) = Some false →
  ClaudeMessageReceiver.wait_for_claude_messages None w = Suspended w.
Proof.
  intros Hbuf Hev. unfold ClaudeMessageReceiver.wait_for_claude_messages.
  rewrite (bind_eq_Returned _ _ _ _ _
             (init_unless_hasattr_present _claude_messages w
                ltac:(rewrite Hbuf; eauto))).
  run. by rewrite Hev.
Qed.

(** Three deliveries are appended in arrival order to what is buffered; one
    wait hands the whole buffer over and a zero-timeout wait after it
    returns the empty list at once. *)
Lemma three_messages_appended w w0 buf m1 m2 m3 timeout :
  coherent (attrs w) →
  ClaudeMessageReceiver.init_unless_hasattr _claude_messages w
    = Returned tt w0 →
  _claude_messages (attrs w0) = Some buf →
  ∃ w1 w2,
    (ClaudeMessageReceiver.receive_claude_message m1 ;;
     ClaudeMessageReceiver.receive_claude_message m2 ;;
     ClaudeMessageReceiver.receive_claude_message m3) w = Returned tt w1 ∧
    ClaudeMessageReceiver.wait_for_claude_messages timeout w1
      = Returned (buf ++ [m1; m2; m3]) w2 ∧
    _claude_messages (attrs w2) = Some [] ∧
    ClaudeMessageReceiver.wait_for_claude_messages (Some 0%Q) w2
      = Returned [] w2.
Proof.
  intros Hco Hinit Hbuf.
  destruct (init_unless_hasattr_initialized _claude_messages w w0)
    as (Hini & _); [by intros a (? & ?) | done | done |].
  destruct Hini as (_ & _ & [ev Hev] & _).
  assert (ClaudeMessageReceiver.receive_claude_message m1 w =
          ClaudeMessageReceiver.receive_claude_message m1 w0) as H1.
  { unfold ClaudeMessageReceiver.receive_claude_message.
    apply lazy_check_absorb; [done | rewrite Hbuf; eauto]. }
  rewrite (receive_claude_message_ready m1 w0 buf ev Hbuf Hev) in H1.
  set (wa := with_attrs _ w0) in H1.
  pose proof (receive_claude_message_ready m2 wa (buf ++ [m1]) true
                eq_refl eq_refl) as H2.
  set (wb := with_attrs _ wa) in H2.
  pose proof (receive_claude_message_ready m3 wb ((buf ++ [m1]) ++ [m2]) true
                eq_refl eq_refl) as H3.
  set (wc := with_attrs _ wb) in H3.
  pose proof (wait_for_claude_messages_ready timeout wc
                (((buf ++ [m1]) ++ [m2]) ++ [m3]) true eq_refl eq_refl
                (or_introl eq_refl)) as H4.
  set (wd := with_attrs _ wc) in H4.
  exists wc, wd. split_and!.
  - rewrite (bind_eq_Returned _ _ _ _ _ H1).
    by rewrite (bind_eq_Returned _ _ _ _ _ H2).
  - rewrite H4. by rewrite <- !app_assoc.
  - reflexivity.
  - rewrite (wait_for_claude_messages_ready (Some 0%Q) wd [] false
               eq_refl eq_refl) by (right; by exists 0%Q).
    reflexivity.
Qed.

(** C8.  For every three messages delivered via [receive_claude_message] to
    a receiver whose inbound buffer is empty, a single
    [wait_for_claude_messages] call (with any timeout or none) returns the
    three messages in arrival order and leaves the buffer empty, and a
    following call with timeout 0 returns the empty list instead of
    suspending. *)
Theorem three_messages_drained_in_order w w0 m1 m2 m3 timeout :
  coherent (attrs w) →
  ClaudeMessageReceiver.init_unless_hasattr _claude_messages w
    = Returned tt w0 →
  _claude_messages (attrs w0) = Some [] →
  ∃ w1 w2,
    (ClaudeMessageReceiver.receive_claude_message m1 ;;
     ClaudeMessageReceiver.receive_claude_message m2 ;;
     ClaudeMessageReceiver.receive_claude_message m3) w = Returned tt w1 ∧
    ClaudeMessageReceiver.wait_for_claude_messages timeout w1
      = Returned [m1; m2; m3] w2 ∧
    _claude_messages (attrs w2) = Some [] ∧
    ClaudeMessageReceiver.wait_for_claude_messages (Some 0%Q) w2
      = Returned [] w2.
Proof.
  intros Hco Hinit Hbuf.
  exact (three_messages_appended w w0 [] m1 m2 m3 timeout Hco Hinit Hbuf).
Qed.

Lemma three_messages_drained_in_order_witness :
  ∃ w1 w2,
    (ClaudeMessageReceiver.receive_claude_message [("type", PyStr "system")] ;;
     ClaudeMessageReceiver.receive_claude_message [("type", PyStr "assistant")] ;;
     ClaudeMessageReceiver.receive_claude_message [("type", PyStr "result")])
      Sample.new_instance = Returned tt w1 ∧
    ClaudeMessageReceiver.wait_for_claude_messages None w1
      = Returned [[("type", PyStr "system")]; [("type", PyStr "assistant")];
                  [("type", PyStr "result")]] w2 ∧
    _claude_messages (attrs w2) = Some [] ∧
    ClaudeMessageReceiver.wait_for_claude_messages (Some 0%Q) w2
      = Returned [] w2.
Proof.
  eapply (three_messages_drained_in_order Sample.new_instance).
  - right. by repeat split.
  - vm_compute. reflexivity.
  - reflexivity.
Defined.

(** ** Discovery fills the registry *)

Lemma get_register_eq name h ex r :
  ToolRegistry.get name (ToolRegistry.register name h ex r) =
  Some {| ToolHandler.tool_name := name; ToolHandler.execution := ex;
          ToolHandler.handler := h |}.
Proof. apply OrdDictFacts.get_set_eq. Qed.

Lemma get_register_ne name name' h ex r :
  name ≠ name' →
  ToolRegistry.get name' (ToolRegistry.register name h ex r) =
  ToolRegistry.get name' r.
Proof. intros Hne. by apply OrdDictFacts.get_set_ne. Qed.

Lemma has_get name r :
  ToolRegistry.has name r = true ↔ is_Some (ToolRegistry.get name r).
Proof. unfold ToolRegistry.has, OrdDict.mem. apply bool_decide_eq_true. Qed.

(** After a run of registrations, a name registered in the run maps to the
    entry of one of the run's registrations for that name. *)
Lemma foldl_register_get all tool_name :
  ∀ entries r,
    entries ⊆ all →
    (∃ h ex, (tool_name, h, ex) ∈ all ∧
             ToolRegistry.get tool_name r =
               Some {| ToolHandler.tool_name := tool_name;
                       ToolHandler.execution := ex;
                       ToolHandler.handler := h |}) ∨
    (∃ h ex, (tool_name, h, ex) ∈ entries) →
    ∃ h ex, (tool_name, h, ex) ∈ all ∧
            ToolRegistry.get tool_name (foldl register_entry r entries) =
              Some {| ToolHandler.tool_name := tool_name;
                      ToolHandler.execution := ex;
                      ToolHandler.handler := h |}.
Proof.
  induction entries as [|[[n h0] ex0] entries IH]; intros r Hsub H; simpl.
  - destruct H as [H|(h & ex & Hin)]; [done | inversion Hin].
  - apply IH; [intros x Hx; apply Hsub; by right |].
    unfold register_entry; simpl.
    destruct (decide (n = tool_name)) as [->|Hne].
    + left. exists h0, ex0. split; [apply Hsub; left | apply get_register_eq].
    + rewrite get_register_ne by done.
      destruct H as [H|(h & ex & Hin)]; [by left | right].
      exists h, ex. apply elem_of_cons in Hin as [[= -> -> ->]|Hin]; done.
Qed.

(** C9, as the code has it.  When every attribute whose access raises
    raises an instance of [Exception], [register_tool_handlers] returns
    normally (and so does [init_claude_receiver]); the instance attributes
    are untouched; the registry is the one it started from with one
    [register] call, in [dir] order, per accessible callable attribute
    carrying both tags, the raising attributes being skipped; and for every
    such attribute its tool name is registered, bound to the handler of an
    attribute tagged with that name. *)
Theorem discovery_skips_failing_attributes w :
  access_faults_are_Exceptions (members w) →
  ∃ l w',
    ToolDecorator.register_tool_handlers w = Returned l w' ∧
    attrs w' = attrs w ∧
    store w' !!! l =
      foldl register_entry
        match _WORKFLOW_TOOL_REGISTRY w !! instance_id w with
        | Some l0 => store w !!! l0
        | None => ToolRegistry.new
        end
        (omap discovered (members w)) ∧
    (∀ name v tool_name execution,
       (name, Gives v) ∈ members w →
       callable v = true →
       _claude_tool_name v = Some tool_name →
       _claude_tool_execution v = Some execution →
       ToolRegistry.has tool_name (store w' !!! l) = true ∧
       ∃ entry,
         ToolRegistry.get tool_name (store w' !!! l) = Some entry ∧
         ToolHandler.tool_name entry = tool_name ∧
         (tool_name, ToolHandler.handler entry, ToolHandler.execution entry)
           ∈ omap discovered (members w)) ∧
    ∃ w'', ClaudeMessageReceiver.init_claude_receiver w = Returned tt w''.
Proof.
  intros Hok.
  destruct (register_tool_handlers_cases w)
    as [(l & w' & Hrun & (Ha & _) & _ & Hst)
       |(e & w' & _ & He & _ & name & Hin)].
  2: { apply Hok in Hin. congruence. }
  exists l, w'. split_and!; [done | done | done | |].
  - intros name v tool_name execution Hin Hc Hn Hx.
    assert ((tool_name, call v, execution) ∈ omap discovered (members w))
      as Hd.
    { apply list_elem_of_omap. exists (name, Gives v). split; [done |].
      unfold discovered; simpl. by rewrite Hc, Hn, Hx. }
    destruct (foldl_register_get (omap discovered (members w)) tool_name
                (omap discovered (members w))
                match _WORKFLOW_TOOL_REGISTRY w !! instance_id w with
                | Some l0 => store w !!! l0
                | None => ToolRegistry.new
                end)
      as (h & ex & Hall & Hget); [done | right; eauto |].
    rewrite <- Hst in Hget. split.
    + apply has_get. rewrite Hget. eauto.
    + eexists. split; [exact Hget |]. by split.
  - destruct (init_claude_receiver_cases w)
      as [(l' & w'' & Hinit & _)|(e & w'' & _ & He & _ & _ & _ & name & Hin)].
    + by exists w''.
    + apply Hok in Hin. congruence.
Qed.

Lemma discovery_skips_failing_attributes_witness :
  ∃ l w',
    ToolDecorator.register_tool_handlers Sample.new_instance = Returned l w' ∧
    ToolRegistry.has "Echo" (store w' !!! l) = true ∧
    ToolRegistry.has "Write" (store w' !!! l) = true.
Proof.
  destruct (discovery_skips_failing_attributes Sample.new_instance)
    as (l & w' & Hrun & _ & _ & Hreg & _).
  - intros name e Hin. simpl in Hin.
    repeat (apply elem_of_cons in Hin as [Heq|Hin];
            [by (inversion Heq; subst) |]).
    inversion Hin.
  - exists l, w'. split_and!; [done | |].
    + refine (proj1 (Hreg "handle_echo"
                       (ToolDecorator.claude_tool "Echo" workflow Sample.echo)
                       "Echo" workflow _ eq_refl eq_refl eq_refl)).
      simpl. right. left.
    + refine (proj1 (Hreg "handle_write"
                       (ToolDecorator.claude_tool "Write" activity Sample.faulty)
                       "Write" activity _ eq_refl eq_refl eq_refl)).
      simpl. do 3 right. left.
Defined.

(** C9, as stated, fails when an attribute's access raises an exception
    that is not an instance of [Exception]: the scan loop's
    [except Exception] lets it through, and both [register_tool_handlers]
    and [init_claude_receiver] raise. *)
Lemma discovery_propagates_BaseException :
  ∃ w' w'',
    ToolDecorator.register_tool_handlers Sample.interrupted_instance
      = Raised (PyBaseException "KeyboardInterrupt") w' ∧
    ClaudeMessageReceiver.init_claude_receiver Sample.interrupted_instance
      = Raised (PyBaseException "KeyboardInterrupt") w''.
Proof.
  eexists _, _. split; vm_compute; reflexivity.
Qed.

(** ** Lazy initialisation of the entry points *)

Lemma lazy_method {A B} (field : Attrs → option A) (k : M B) :
  (∀ a, uninitialized a → field a = None) →
  (∀ r, is_Some (field (init_attrs r))) →
  (∀ w l text w',
     attrs w = init_attrs (Some l) →
     (ClaudeMessageReceiver.init_unless_hasattr field ;; k) w
       ≠ Raised (AttributeError text) w') →
  lazily_initializing (ClaudeMessageReceiver.init_unless_hasattr field ;; k).
Proof.
  intros Hnone Hsome Hsafe w Hu.
  assert ((ClaudeMessageReceiver.init_unless_hasattr field ;; k) w =
          (ClaudeMessageReceiver.init_claude_receiver ;; k) w) as Hstart.
  { unfold bind. by rewrite init_unless_hasattr_absent by auto. }
  destruct (init_claude_receiver_cases w)
    as [(l & w1 & Hinit & Ha & _)|(e & w1 & Hinit & He & _)].
  - assert ((ClaudeMessageReceiver.init_unless_hasattr field ;; k) w1 = k w1)
      as Hthen.
    { rewrite (bind_eq_Returned _ _ _ _ _
                 (init_unless_hasattr_present field w1
                    ltac:(rewrite Ha; apply Hsome))). done. }
    split.
    + rewrite Hstart, !(bind_eq_Returned _ _ _ _ _ Hinit). by rewrite Hthen.
    + intros text w'. rewrite Hstart, (bind_eq_Returned _ _ _ _ _ Hinit).
      rewrite <- Hthen. by eapply Hsafe.
  - split.
    + by rewrite Hstart, !(bind_eq_Raised _ _ _ _ _ Hinit).
    + intros text w'. rewrite Hstart, (bind_eq_Raised _ _ _ _ _ Hinit).
      intros [= -> _]. done.
Qed.

Lemma request_tool_execution_no_AttributeError d w l text w' :
  attrs w = init_attrs (Some l) →
  ClaudeMessageReceiver.request_tool_execution d w
    ≠ Raised (AttributeError text) w'.
Proof.
  intros Ha. rewrite request_tool_execution_phases.
  destruct (ToolRequest.model_validate d) as [req|e] eqn:Hval.
  - rewrite (bind_eq_Returned _ _ _ _ _
               (accept_ready d w req ∅ l
                  ltac:(rewrite Ha; simpl; eauto) Hval
                  ltac:(by rewrite Ha) ltac:(by rewrite Ha))).
    simpl fst; simpl snd.
    set (w1 := with_attrs _ w).
    assert (∀ result,
              ClaudeMessageReceiver.resolve req result w1
                ≠ Raised (AttributeError text) w') as Hres.
    { intros result.
      erewrite (resolve_eq req result w1 ∅);
        [done | subst w1; reduce_world; by rewrite Ha | reflexivity
        | apply lookup_insert_eq]. }
    destruct (ToolRegistry.get (ToolRequest.tool_name req) (store w !!! l))
      as [h|].
    + unfold bind at 1. rewrite dispatch_eq.
      destruct (ToolHandler.handler h _ _) as [out|e]; [apply Hres |].
      destruct e; simpl; try apply Hres. done.
    + unfold bind at 1. simpl. apply Hres.
  - unfold ClaudeMessageReceiver.accept. rewrite bind_assoc.
    rewrite (bind_eq_Returned _ _ _ _ _
               (init_unless_hasattr_present _pending_tool_requests w
                  ltac:(rewrite Ha; simpl; eauto))).
    run. rewrite Hval. intros [= -> _].
    unfold ToolRequest.model_validate in Hval.
    repeat case_match; discriminate.
Qed.

(** Each public entry point, called on an instance on which
    [init_claude_receiver] never ran, does exactly what it does when called
    right after [init_claude_receiver], and does not end in an
    AttributeError for a missing attribute. *)
Lemma entry_points_initialize_lazily :
  (∀ message,
     lazily_initializing (ClaudeMessageReceiver.receive_claude_message message)) ∧
  (∀ timeout,
     lazily_initializing (ClaudeMessageReceiver.wait_for_claude_messages timeout)) ∧
  lazily_initializing ClaudeMessageReceiver.get_claude_messages ∧
  lazily_initializing ClaudeMessageReceiver.get_and_consume_messages ∧
  (∀ message,
     lazily_initializing (ClaudeMessageReceiver.send_to_claude message)) ∧
  (∀ request_dict,
     lazily_initializing
       (ClaudeMessageReceiver.request_tool_execution request_dict)) ∧
  (∀ tool_id,
     lazily_initializing (ClaudeMessageReceiver.get_tool_result tool_id)).
Proof.
  split_and!; intros;
    (apply lazy_method;
     [ by intros a (? & ? & ? & ? & ? & ? & ?)
     | intros r; simpl; eauto
     | intros w l text w' Ha ]).
  - change (ClaudeMessageReceiver.receive_claude_message message w
            ≠ Raised (AttributeError text) w').
    rewrite (receive_claude_message_ready message w [] false)
      by (by rewrite Ha). done.
  - change (ClaudeMessageReceiver.wait_for_claude_messages timeout w
            ≠ Raised (AttributeError text) w').
    destruct timeout as [t|].
    + destruct (Qle_bool t 0) eqn:Ht.
      * rewrite (wait_for_claude_messages_ready (Some t) w [] false)
          by (first [by rewrite Ha | right; by exists t]). done.
      * rewrite (wait_for_claude_messages_parked t w [])
          by (first [by rewrite Ha | done]). done.
    + rewrite (wait_for_claude_messages_blocks w [])
        by (by rewrite Ha). done.
  - rewrite (bind_eq_Returned _ _ _ _ _
               (init_unless_hasattr_present _claude_messages w
                  ltac:(rewrite Ha; simpl; eauto))).
    run. rewrite Ha. simpl. rewrite ?Ha. done.
  - rewrite (bind_eq_Returned _ _ _ _ _
               (init_unless_hasattr_present _claude_outgoing w
                  ltac:(rewrite Ha; simpl; eauto))).
    run. rewrite Ha. simpl. rewrite ?Ha. done.
  - rewrite (bind_eq_Returned _ _ _ _ _
               (init_unless_hasattr_present _claude_outgoing w
                  ltac:(rewrite Ha; simpl; eauto))).
    run. rewrite Ha. simpl. rewrite ?Ha. done.
  - by apply (request_tool_execution_no_AttributeError request_dict w l).
  - change (ClaudeMessageReceiver.get_tool_result tool_id w
            ≠ Raised (AttributeError text) w').
    rewrite (get_tool_result_not_found tool_id w ∅ ∅)
      by (first [by rewrite Ha | apply lookup_empty]). done.
Qed.

(** ** The data attributes stay assigned

    The hypothesis [coherent] of the theorems above is an invariant: a new
    instance is coherent, and every entry point leaves a coherent instance
    initialised (however the call ends), the two registry accessors leave
    it coherent. *)

Lemma keeps_ret {A} (a : A) : keeps_initialized (ret a).
Proof. by intros w. Qed.

Lemma keeps_raise {A} e : keeps_initialized (@raise A e).
Proof. by intros w. Qed.

Lemma keeps_lift {A} (c : Completion A) : keeps_initialized (lift c).
Proof. intros w. unfold lift. by destruct c. Qed.

Lemma keeps_getattr {A} name (field : Attrs → option A) :
  keeps_initialized (getattr name field).
Proof. intros w. unfold getattr. by destruct (field (attrs w)). Qed.

Lemma keeps_await_event e : keeps_initialized (await_event e).
Proof. intros w. unfold await_event. by destruct (Event.is_set e). Qed.

Lemma keeps_wait_for_event e t : keeps_initialized (wait_for_event e t).
Proof.
  intros w. unfold wait_for_event.
  by destruct (Event.is_set e), (Qle_bool t 0).
Qed.

Lemma keeps_bind {A B} (m : M A) (k : A → M B) :
  keeps_initialized m → (∀ a, keeps_initialized (k a)) →
  keeps_initialized (bind m k).
Proof.
  intros Hm Hk w Hw. specialize (Hm w Hw). unfold bind.
  destruct (m w) as [a w1|e w1|w1]; simpl in *; [by apply Hk | done..].
Qed.

Lemma keeps_try {A} (body : M A) clauses :
  keeps_initialized body →
  (∀ e h, clauses e = Some h → keeps_initialized h) →
  keeps_initialized (try_ body clauses).
Proof.
  intros Hb Hc w Hw. specialize (Hb w Hw). unfold try_.
  destruct (body w) as [a w1|e w1|w1]; simpl in *; [done | | done].
  destruct (clauses e) as [h|] eqn:He; [by eapply Hc | done].
Qed.

Lemma keeps_setattr upd :
  (∀ a, initialized a → initialized (upd a)) →
  keeps_initialized (setattr upd).
Proof. intros Hupd w Hw. by apply Hupd. Qed.

Lemma keeps_registry_get l name :
  keeps_initialized (ToolDecorator.registry_get l name).
Proof. by intros w. Qed.

Lemma keeps_receiver_get_tool_registry :
  keeps_initialized ClaudeMessageReceiver.get_tool_registry.
Proof.
  intros w Hw.
  destruct (receiver_get_tool_registry_cases w)
    as [(l & w' & -> & Ha & _)|(e & w' & -> & _ & Ha & _)];
    simpl; rewrite Ha; [|done].
  by destruct (attrs w).
Qed.

Lemma init_claude_receiver_initialized w :
  initialized (attrs (final (ClaudeMessageReceiver.init_claude_receiver w))).
Proof.
  destruct (init_claude_receiver_cases w)
    as [(l & w' & -> & Ha & _)|(e & w' & -> & _ & Ha & _)];
    simpl; rewrite Ha; apply init_attrs_initialized.
Qed.

Ltac keeps_step :=
  first
    [ apply keeps_ret | apply keeps_raise | apply keeps_lift
    | apply keeps_getattr | apply keeps_await_event
    | apply keeps_wait_for_event | apply keeps_registry_get
    | apply keeps_receiver_get_tool_registry
    | apply keeps_setattr;
      let a := fresh "a" in
      intros a; destruct a; unfold initialized; simpl; intuition eauto
    | apply keeps_bind; [| intros ?]
    | apply keeps_try;
      [| let e := fresh "e" in
         intros e ?; unfold or_except, except_ToolDenied, except_Exception,
           except_TimeoutError; destruct e; simpl; intros ?; simplify_eq ]
    | case_match ].

(** What follows the lazy check keeps the instance initialised; the check
    itself makes a coherent instance initialised. *)
Lemma lazy_method_initializes {A B} (field : Attrs → option A) (k : M B) w :
  (∀ a, uninitialized a → field a = None) →
  keeps_initialized k →
  coherent (attrs w) →
  initialized
    (attrs (final ((ClaudeMessageReceiver.init_unless_hasattr field ;; k) w))).
Proof.
  intros Hfield Hk Hco.
  destruct (field (attrs w)) as [x|] eqn:Hx.
  - rewrite (bind_eq_Returned _ _ _ _ _
               (init_unless_hasattr_present field w
                  ltac:(rewrite Hx; eauto))).
    apply Hk. destruct Hco as [Hi|Hu]; [done |].
    apply Hfield in Hu. congruence.
  - pose proof (init_claude_receiver_initialized w) as Hinit.
    unfold bind. rewrite init_unless_hasattr_absent by done.
    destruct (ClaudeMessageReceiver.init_claude_receiver w)
      as [[] w1|e w1|w1]; simpl in *; [by apply Hk | done..].
Qed.

Theorem entry_points_leave_initialized w :
  coherent (attrs w) →
  (∀ message,
     initialized (attrs (final
       (ClaudeMessageReceiver.receive_claude_message message w)))) ∧
  (∀ timeout,
     initialized (attrs (final
       (ClaudeMessageReceiver.wait_for_claude_messages timeout w)))) ∧
  initialized (attrs (final (ClaudeMessageReceiver.get_claude_messages w))) ∧
  initialized (attrs (final
    (ClaudeMessageReceiver.get_and_consume_messages w))) ∧
  (∀ message,
     initialized (attrs (final
       (ClaudeMessageReceiver.send_to_claude message w)))) ∧
  (∀ request_dict,
     initialized (attrs (final
       (ClaudeMessageReceiver.request_tool_execution request_dict w)))) ∧
  (∀ tool_id,
     initialized (attrs (final
       (ClaudeMessageReceiver.get_tool_result tool_id w)))) ∧
  coherent (attrs (final (ClaudeMessageReceiver.get_tool_registry w))) ∧
  coherent (attrs (final (ClaudeMessageReceiver.get_registered_tools w))).
Proof.
  intros Hco.
  assert (coherent (attrs (final (ClaudeMessageReceiver.get_tool_registry w))))
    as Hreg.
  { destruct (receiver_get_tool_registry_cases w)
      as [(l & w' & -> & Ha & _)|(e & w' & -> & _ & Ha & _)];
      simpl; rewrite Ha; [|done].
    destruct (attrs w); exact Hco. }
  split_and!; intros;
    try (apply lazy_method_initializes;
         [by intros a (? & ? & ? & ? & ? & ? & ?) | | done];
         repeat keeps_step).
  - exact Hreg.
  - unfold ClaudeMessageReceiver.get_registered_tools, bind.
    by destruct (ClaudeMessageReceiver.get_tool_registry w).
Qed.

(** ** The registry as a dictionary *)

Lemma has_register name' name h ex r :
  ToolRegistry.has name' (ToolRegistry.register name h ex r) = true ↔
  name' = name ∨ ToolRegistry.has name' r = true.
Proof.
  rewrite !has_get. destruct (decide (name = name')) as [->|Hne].
  - rewrite get_register_eq. split; [by left | eauto].
  - rewrite get_register_ne by done. split; [by right |].
    intros [->|H]; done.
Qed.

Lemma has_keys name r :
  ToolRegistry.has name r = true ↔
  name ∈ OrdDict.keys (ToolRegistry.handlers r).
Proof. rewrite has_get. apply OrdDictFacts.assoc_keys. Qed.

(** X1.  A name is registered right after [register] and stays registered
    through any further registrations, under whatever names; registering a
    name leaves what [get] returns for every other name as it was. *)
Theorem registered_names_stay_registered r name h ex entries :
  ToolRegistry.has name
    (foldl register_entry (ToolRegistry.register name h ex r) entries) = true ∧
  (∀ name', ToolRegistry.has name' r = true →
            ToolRegistry.has name' (foldl register_entry r entries) = true) ∧
  (∀ name', name ≠ name' →
            ToolRegistry.get name' (ToolRegistry.register name h ex r) =
            ToolRegistry.get name' r).
Proof.
  assert (∀ es r0 n, ToolRegistry.has n r0 = true →
                     ToolRegistry.has n (foldl register_entry r0 es) = true)
    as Hfold.
  { induction es as [|[[n0 h0] ex0] es IH]; intros r0 n Hn; simpl; [done |].
    apply IH. unfold register_entry; simpl. apply has_register. by right. }
  split_and!.
  - apply Hfold, has_register. by left.
  - intros name'. apply Hfold.
  - intros name' Hne. by apply get_register_ne.
Qed.

(** X2.  The names [get_registered_tools] lists keep their insertion order:
    registering a name that is already there leaves the list as it was,
    registering a new name puts it at the end, and a list without
    repetitions stays without repetitions. *)
Theorem registered_tools_keep_insertion_order w l name h ex :
  _tool_registry (attrs w) = Some l →
  let names := OrdDict.keys (ToolRegistry.handlers (store w !!! l)) in
  ∃ w',
    (ToolDecorator.registry_register l name h ex ;;
     ClaudeMessageReceiver.get_registered_tools) w =
      Returned (if ToolRegistry.has name (store w !!! l)
                then names else names ++ [name]) w' ∧
    (NoDup names →
     NoDup (OrdDict.keys (ToolRegistry.handlers (store w' !!! l)))).
Proof.
  intros Hl names.
  set (w1 := with_store
               (<[l := ToolRegistry.register name h ex (store w !!! l)]>
                  (store w)) w).
  assert (store w1 !!! l = ToolRegistry.register name h ex (store w !!! l))
    as Hst by apply lookup_total_insert_eq.
  exists w1. split.
  - assert ((ToolDecorator.registry_register l name h ex ;;
             ClaudeMessageReceiver.get_registered_tools) w =
            ClaudeMessageReceiver.get_registered_tools w1) as -> by reflexivity.
    unfold ClaudeMessageReceiver.get_registered_tools.
    rewrite (bind_eq_Returned _ _ _ _ _
               (receiver_get_tool_registry_present w1 l Hl)).
    run. rewrite Hst. f_equal. unfold ToolRegistry.register; simpl.
    destruct (ToolRegistry.has name (store w !!! l)) eqn:Hhas.
    + apply OrdDictFacts.keys_set_in. by apply has_keys.
    + apply OrdDictFacts.keys_set_notin. rewrite <- has_keys. congruence.
  - intros Hnd. rewrite Hst. unfold ToolRegistry.register; simpl.
    by apply OrdDictFacts.keys_set_NoDup.
Qed.

Lemma registered_tools_keep_insertion_order_witness :
  ∃ w',
    (ToolDecorator.registry_register 1 "Grep" Sample.echo claude ;;
     ClaudeMessageReceiver.get_registered_tools) Sample.started =
      Returned ["Bash"; "Echo"; "Fetch"; "Write"; "Grep"] w'.
Proof.
  destruct (registered_tools_keep_insertion_order Sample.started 1%positive
              "Grep" Sample.echo claude) as (w' & Hrun & _).
  - vm_compute. reflexivity.
  - exists w'. exact Hrun.
Defined.

(** ** The module table of registries *)

(** X3.  [get_tool_registry(workflow_instance)] is stable: it returns a
    registry that a second call returns again without changing anything; it
    leaves the instance attributes, the table entries of other instances
    and every registry object that already exists as they were; and for an
    instance without an entry the registry it creates is a new, empty
    object. *)
Theorem module_get_tool_registry_get_or_create w :
  ∃ l w1,
    ToolDecorator.get_tool_registry w = Returned l w1 ∧
    ToolDecorator.get_tool_registry w1 = Returned l w1 ∧
    attrs w1 = attrs w ∧
    (∀ id, id ≠ instance_id w →
           _WORKFLOW_TOOL_REGISTRY w1 !! id = _WORKFLOW_TOOL_REGISTRY w !! id) ∧
    (∀ l0, is_Some (store w !! l0) → store w1 !! l0 = store w !! l0) ∧
    (_WORKFLOW_TOOL_REGISTRY w !! instance_id w = None →
     store w !! l = None ∧ store w1 !! l = Some ToolRegistry.new).
Proof.
  unfold ToolDecorator.get_tool_registry.
  destruct (_WORKFLOW_TOOL_REGISTRY w !! instance_id w) as [l0|] eqn:Hl.
  - exists l0, w. rewrite Hl. by split_and!.
  - set (l := fresh (dom (store w))).
    assert (store w !! l = None) as Hfresh.
    { apply not_elem_of_dom. apply is_fresh. }
    eexists l, _. split; [reflexivity |]. reduce_world.
    rewrite lookup_insert_eq. split_and!; [done | done | | | ].
    + intros id Hid. by rewrite lookup_insert_ne.
    + intros l0 [r Hr]. rewrite lookup_insert_ne; [done |]. congruence.
    + intros _. split; [done | apply lookup_insert_eq].
Qed.

(** X4.  [clear_tool_registry] only removes the instance's table entry.
    The instance keeps referring to its registry object, so
    [get_registered_tools] still lists the same names; but the module-level
    [get_tool_registry] now creates another, empty registry, distinct from
    the one the instance dispatches from. *)
Theorem clear_tool_registry_detaches_table_entry w l :
  _tool_registry (attrs w) = Some l →
  is_Some (store w !! l) →
  ∃ w1,
    ToolDecorator.clear_tool_registry w = Returned tt w1 ∧
    _WORKFLOW_TOOL_REGISTRY w1 !! instance_id w = None ∧
    (∀ id, id ≠ instance_id w →
           _WORKFLOW_TOOL_REGISTRY w1 !! id = _WORKFLOW_TOOL_REGISTRY w !! id) ∧
    attrs w1 = attrs w ∧ store w1 = store w ∧
    ToolDecorator.clear_tool_registry w1 = Returned tt w1 ∧
    ClaudeMessageReceiver.get_registered_tools w1 =
      Returned (OrdDict.keys (ToolRegistry.handlers (store w !!! l))) w1 ∧
    ∃ l' w2,
      ToolDecorator.get_tool_registry w1 = Returned l' w2 ∧
      l' ≠ l ∧
      store w2 !!! l' = ToolRegistry.new ∧
      store w2 !!! l = store w !!! l.
Proof.
  intros Hl [r Hr].
  set (w1 := with_table
               (delete (instance_id w) (_WORKFLOW_TOOL_REGISTRY w)) w).
  exists w1. split; [reflexivity |].
  assert (_WORKFLOW_TOOL_REGISTRY w1 !! instance_id w1 = None) as Hnone
    by apply lookup_delete_eq.
  split_and!; [done | | done | done | | |].
  - intros id Hid. subst w1. reduce_world. by rewrite lookup_delete_ne.
  - unfold ToolDecorator.clear_tool_registry, modify. f_equal.
    subst w1. unfold with_table; simpl. f_equal.
    apply delete_id, lookup_delete_eq.
  - unfold ClaudeMessageReceiver.get_registered_tools.
    by rewrite (bind_eq_Returned _ _ _ _ _
                  (receiver_get_tool_registry_present w1 l Hl)).
  - unfold ToolDecorator.get_tool_registry. rewrite Hnone.
    set (l' := fresh (dom (store w1))).
    assert (l' ≠ l) as Hne.
    { intros Heq. apply (is_fresh (dom (store w1))).
      change (l' ∈ dom (store w1)). rewrite Heq.
      apply elem_of_dom. subst w1. reduce_world. eauto. }
    eexists l', _. split; [reflexivity |]. reduce_world.
    split_and!; [done | apply lookup_total_insert_eq |].
    by rewrite lookup_total_insert_ne.
Qed.

Lemma clear_tool_registry_detaches_table_entry_witness :
  ∃ w1 l' w2,
    ToolDecorator.clear_tool_registry Sample.started = Returned tt w1 ∧
    ClaudeMessageReceiver.get_registered_tools w1 =
      Returned ["Bash"; "Echo"; "Fetch"; "Write"] w1 ∧
    ToolDecorator.get_tool_registry w1 = Returned l' w2 ∧
    l' ≠ 1%positive ∧
    store w2 !!! l' = ToolRegistry.new.
Proof.
  destruct (clear_tool_registry_detaches_table_entry Sample.started 1%positive)
    as (w1 & Hclear & _ & _ & _ & _ & _ & Htools & l' & w2 & Hget & Hne & Hnew & _).
  - vm_compute. reflexivity.
  - vm_compute. eexists. reflexivity.
  - exists w1, l', w2. split_and!; [exact Hclear | exact Htools | done..].
Defined.

(** X5.  When [init_claude_receiver] returns, every buffer and both
    per-id dictionaries are empty whatever they held before, and
    [_tool_registry] refers to the very registry object the module table
    holds for the instance: the module-level [get_tool_registry] returns
    that same object and changes nothing. *)
Theorem init_claude_receiver_resets_and_shares_registry w w' :
  ClaudeMessageReceiver.init_claude_receiver w = Returned tt w' →
  ∃ l,
    attrs w' = init_attrs (Some l) ∧
    _WORKFLOW_TOOL_REGISTRY w' !! instance_id w' = Some l ∧
    ToolDecorator.get_tool_registry w' = Returned l w' ∧
    (∀ tool_id,
       stored_result tool_id w' = None ∧ result_event tool_id w' = None).
Proof.
  set (w7 := with_attrs (init_attrs (_tool_registry (attrs w))) w).
  assert (ClaudeMessageReceiver.init_claude_receiver w =
          (registry <- ToolDecorator.register_tool_handlers ;;
           setattr (set_tool_registry registry)) w7) as -> by reflexivity.
  destruct (register_tool_handlers_cases w7)
    as [(l & w1 & Hrun & (Ha & Hm & Hi) & Ht & _)|(e & w1 & Hrun & _)].
  2: { by rewrite (bind_eq_Raised _ _ _ _ _ Hrun). }
  rewrite (bind_eq_Returned _ _ _ _ _ Hrun). intros [= <-].
  exists l. reduce_world.
  assert (_WORKFLOW_TOOL_REGISTRY w1 !! instance_id w1 = Some l) as Ht'
    by (by rewrite Hi).
  split_and!.
  - by rewrite Ha.
  - done.
  - unfold ToolDecorator.get_tool_registry. reduce_world. by rewrite Ht'.
  - intros tool_id. unfold stored_result, result_event. reduce_world.
    rewrite Ha. simpl. by rewrite !lookup_empty.
Qed.

Lemma init_claude_receiver_resets_and_shares_registry_witness :
  ∃ l,
    attrs Sample.started = init_attrs (Some l) ∧
    ToolDecorator.get_tool_registry Sample.started
      = Returned l Sample.started ∧
    stored_result "t1" Sample.started = None.
Proof.
  destruct (init_claude_receiver_resets_and_shares_registry
              Sample.new_instance Sample.started)
    as (l & Ha & _ & Hget & Hres).
  - vm_compute. reflexivity.
  - exists l. split_and!; [exact Ha | exact Hget | apply (Hres "t1")].
Defined.

(** ** Running discovery again *)

(** A dictionary without repeated keys is determined by its key order and
    its lookups. *)
Lemma ord_dict_ext {V} (d1 d2 : list (string * V)) :
  NoDup (OrdDict.keys d1) →
  OrdDict.keys d1 = OrdDict.keys d2 →
  (∀ k, assoc k d1 = assoc k d2) →
  d1 = d2.
Proof.
  unfold OrdDict.keys. revert d2.
  induction d1 as [|[k1 v1] d1 IH]; intros [|[k2 v2] d2] Hnd Hk Ha;
    simpl in *; try done.
  injection Hk as -> Hk. apply NoDup_cons in Hnd as [Hnin Hnd].
  pose proof (Ha k2) as Hv. rewrite !decide_True in Hv by done.
  injection Hv as ->. f_equal. apply IH; [done | done |].
  intros k. specialize (Ha k).
  destruct (decide (k2 = k)) as [<-|Hne]; [| done].
  transitivity (@None V).
  - destruct (assoc k2 d1) eqn:Hd; [| done].
    exfalso. apply Hnin. apply (OrdDictFacts.assoc_keys k2 d1). eauto.
  - destruct (assoc k2 d2) eqn:Hd; [| done].
    exfalso. apply Hnin. rewrite Hk.
    apply (OrdDictFacts.assoc_keys k2 d2). eauto.
Qed.

Lemma get_foldl_register k entries r :
  ToolRegistry.get k (foldl register_entry r entries) =
  overridden k entries (ToolRegistry.get k r).
Proof.
  revert r. induction entries as [|[[n h] ex] entries IH]; intros r;
    [done |].
  simpl. rewrite IH. f_equal. unfold register_entry; simpl.
  destruct (decide (n = k)) as [->|Hne].
  - apply get_register_eq.
  - by apply get_register_ne.
Qed.

Lemma overridden_absorbs k entries :
  (∀ x, overridden k entries x = x) ∨
  (∃ t, ∀ x, overridden k entries x = t).
Proof.
  induction entries as [|[[n h] ex] entries IH]; [by left |].
  unfold overridden in *; simpl.
  destruct IH as [IH|[t IH]].
  - destruct (decide (n = k)).
    + right. eexists. intros x. by rewrite IH.
    + left. intros x. by rewrite IH.
  - right. exists t. intros x. by rewrite IH.
Qed.

Lemma keys_foldl_register_known entries r :
  (∀ entry, entry ∈ entries → ToolRegistry.has entry.1.1 r = true) →
  OrdDict.keys (ToolRegistry.handlers (foldl register_entry r entries)) =
  OrdDict.keys (ToolRegistry.handlers r).
Proof.
  revert r. induction entries as [|[[n h] ex] entries IH]; intros r Hin;
    [done |].
  simpl. rewrite IH.
  - unfold register_entry, ToolRegistry.register; simpl.
    apply OrdDictFacts.keys_set_in, has_keys. apply (Hin (n, h, ex)). left.
  - intros entry He. unfold register_entry at 1; simpl.
    apply has_register. right. apply Hin. by right.
Qed.

Lemma has_foldl_keeps entries r name :
  ToolRegistry.has name r = true →
  ToolRegistry.has name (foldl register_entry r entries) = true.
Proof.
  revert r. induction entries as [|[[n h] ex] entries IH]; intros r Hn;
    [done |].
  simpl. apply IH. unfold register_entry; simpl.
  apply has_register. by right.
Qed.

Lemma has_foldl_register entries r entry :
  entry ∈ entries →
  ToolRegistry.has entry.1.1 (foldl register_entry r entries) = true.
Proof.
  revert r. induction entries as [|e entries IH]; intros r Hin;
    [inversion Hin |].
  apply elem_of_cons in Hin as [->|Hin]; [| by apply IH].
  destruct e as [[n h] ex]. simpl.
  apply has_foldl_keeps. unfold register_entry; simpl.
  apply has_register. by left.
Qed.

Lemma NoDup_foldl_register entries r :
  NoDup (OrdDict.keys (ToolRegistry.handlers r)) →
  NoDup (OrdDict.keys (ToolRegistry.handlers (foldl register_entry r entries))).
Proof.
  revert r. induction entries as [|[[n h] ex] entries IH]; intros r Hnd;
    [done |].
  simpl. apply IH. unfold register_entry, ToolRegistry.register; simpl.
  by apply OrdDictFacts.keys_set_NoDup.
Qed.

(** Registering a run of entries a second time changes nothing. *)
Lemma foldl_register_idempotent entries r :
  NoDup (OrdDict.keys (ToolRegistry.handlers r)) →
  foldl register_entry (foldl register_entry r entries) entries =
  foldl register_entry r entries.
Proof.
  intros Hnd. set (r1 := foldl register_entry r entries).
  assert (ToolRegistry.handlers (foldl register_entry r1 entries) =
          ToolRegistry.handlers r1) as Heq.
  { symmetry. apply ord_dict_ext.
    - by apply NoDup_foldl_register.
    - symmetry. apply keys_foldl_register_known.
      intros entry Hin. by apply has_foldl_register.
    - intros k. change (ToolRegistry.get k r1 =
                        ToolRegistry.get k (foldl register_entry r1 entries)).
      rewrite get_foldl_register. subst r1. rewrite get_foldl_register.
      destruct (overridden_absorbs k entries) as [H|[t H]];
        by rewrite !H. }
  destruct (foldl register_entry r1 entries), r1; simpl in *. by subst.
Qed.

Lemma for_each_scan_Returned_faults l ms w w' :
  for_each (ToolDecorator.scan l) ms w = Returned tt w' →
  access_faults_are_Exceptions ms.
Proof.
  revert w. induction ms as [|m ms IH]; intros w Hrun name e Hin;
    [inversion Hin |].
  simpl in Hrun. pose proof (scan_eq l m w) as Hscan.
  destruct m as [n [v|e0]]; simpl in Hscan.
  - rewrite (bind_eq_Returned _ _ _ _ _ Hscan) in Hrun.
    apply elem_of_cons in Hin as [[=]|Hin]. by eapply IH.
  - destruct (is_Exception e0) eqn:He.
    + rewrite (bind_eq_Returned _ _ _ _ _ Hscan) in Hrun.
      apply elem_of_cons in Hin as [[= -> ->]|Hin]; [done | by eapply IH].
    + by rewrite (bind_eq_Raised _ _ _ _ _ Hscan) in Hrun.
Qed.

(** X6.  Discovery is idempotent.  When [register_tool_handlers] has
    returned a registry (one whose names are listed without repetition, as
    a dict's keys are), running it again returns the same registry object
    with the same handlers under the same names in the same order, and again
    leaves the instance attributes alone. *)
Theorem register_tool_handlers_idempotent w l w1 :
  NoDup (OrdDict.keys (ToolRegistry.handlers
           match _WORKFLOW_TOOL_REGISTRY w !! instance_id w with
           | Some l0 => store w !!! l0
           | None => ToolRegistry.new
           end)) →
  ToolDecorator.register_tool_handlers w = Returned l w1 →
  ∃ w2,
    ToolDecorator.register_tool_handlers w1 = Returned l w2 ∧
    store w2 !!! l = store w1 !!! l ∧
    attrs w2 = attrs w1 ∧
    _WORKFLOW_TOOL_REGISTRY w2 = _WORKFLOW_TOOL_REGISTRY w1.
Proof.
  intros Hnd Hrun.
  destruct (register_tool_handlers_cases w)
    as [(l' & w' & Hrun' & (Ha & Hm & Hi) & Ht & Hst)|(e & w' & Hrun' & _)];
    rewrite Hrun' in Hrun; [|done].
  injection Hrun as -> ->.
  assert (ToolDecorator.register_tool_handlers w1 =
          (for_each (ToolDecorator.scan l) (members w1) ;; ret l) w1) as Hsnd.
  { unfold ToolDecorator.register_tool_handlers, ToolDecorator.get_tool_registry,
      bind at 1. by rewrite Hi, Ht. }
  destruct (for_each_scan_cases l (members w1) w1)
    as [(w2 & Hscan & (Ha2 & _) & Ht2 & Hst2)|(e & w2 & _ & He & _ & name & Hin)].
  - exists w2. rewrite Hsnd, (bind_eq_Returned _ _ _ _ _ Hscan).
    split_and!; [done | | done | done].
    rewrite Hst2, Hst, Hm. by apply foldl_register_idempotent.
  - exfalso.
    assert (access_faults_are_Exceptions (members w)) as Hok.
    { destruct (module_get_tool_registry_spec w)
        as (l0 & w0 & Hget & (_ & Hm0 & _) & _).
      unfold ToolDecorator.register_tool_handlers in Hrun'.
      rewrite (bind_eq_Returned _ _ _ _ _ Hget) in Hrun'.
      unfold get_world, bind at 1 in Hrun'.
      apply bind_Returned in Hrun' as ([] & wx & Hscan & _).
      rewrite <- Hm0. by eapply for_each_scan_Returned_faults. }
    rewrite Hm in Hin. apply Hok in Hin. congruence.
Qed.

Lemma register_tool_handlers_idempotent_witness :
  ∃ w2,
    ToolDecorator.register_tool_handlers Sample.scanned
      = Returned 1%positive w2 ∧
    store w2 !!! 1%positive = store Sample.scanned !!! 1%positive.
Proof.
  destruct (register_tool_handlers_idempotent
              Sample.new_instance 1%positive Sample.scanned)
    as (w2 & Hrun & Hst & _).
  - vm_compute. apply NoDup_nil_2.
  - vm_compute. reflexivity.
  - exists w2. split; [exact Hrun | exact Hst].
Defined.

(** ** The two message buffers as queues *)

Lemma send_to_claude_ready message w buf :
  _claude_outgoing (attrs w) = Some buf →
  ClaudeMessageReceiver.send_to_claude message w =
  Returned tt (with_attrs (set_claude_outgoing (buf ++ [message]) (attrs w)) w).
Proof.
  intros Hbuf. unfold ClaudeMessageReceiver.send_to_claude.
  rewrite (bind_eq_Returned _ _ _ _ _
             (init_unless_hasattr_present _claude_outgoing w
                ltac:(rewrite Hbuf; eauto))).
  run. by rewrite Hbuf.
Qed.

Lemma get_and_consume_messages_ready w buf :
  _claude_outgoing (attrs w) = Some buf →
  ClaudeMessageReceiver.get_and_consume_messages w =
  Returned buf (with_attrs (set_claude_outgoing [] (attrs w)) w).
Proof.
  intros Hbuf. unfold ClaudeMessageReceiver.get_and_consume_messages.
  rewrite (bind_eq_Returned _ _ _ _ _
             (init_unless_hasattr_present _claude_outgoing w
                ltac:(rewrite Hbuf; eauto))).
  run. by rewrite Hbuf.
Qed.

Lemma get_claude_messages_ready w buf ev :
  _claude_messages (attrs w) = Some buf →
  _claude_message_event (attrs w) = Some ev →
  ClaudeMessageReceiver.get_claude_messages w =
  Returned buf
    (with_attrs
       (set_claude_message_event false (set_claude_messages [] (attrs w))) w).
Proof.
  intros Hbuf Hev. unfold ClaudeMessageReceiver.get_claude_messages.
  rewrite (bind_eq_Returned _ _ _ _ _
             (init_unless_hasattr_present _claude_messages w
                ltac:(rewrite Hbuf; eauto))).
  run. rewrite Hbuf. reduce_world. by rewrite Hev.
Qed.

Lemma for_each_send_to_claude messages :
  ∀ w buf,
    _claude_outgoing (attrs w) = Some buf →
    ∃ w',
      for_each ClaudeMessageReceiver.send_to_claude messages w
        = Returned tt w' ∧
      attrs w' = set_claude_outgoing (buf ++ messages) (attrs w) ∧
      store w' = store w ∧
      _WORKFLOW_TOOL_REGISTRY w' = _WORKFLOW_TOOL_REGISTRY w.
Proof.
  induction messages as [|m ms IH]; intros w buf Hbuf; simpl.
  - exists w. rewrite app_nil_r. split_and!; try done.
    revert Hbuf. destruct (attrs w); simpl. by intros ->.
  - rewrite (bind_eq_Returned _ _ _ _ _ (send_to_claude_ready m w buf Hbuf)).
    destruct (IH (with_attrs (set_claude_outgoing (buf ++ [m]) (attrs w)) w)
                (buf ++ [m]) eq_refl) as (w' & Hrun & Ha & Hs & Ht).
    exists w'. split_and!; [done | | done | done].
    rewrite Ha. reduce_world. by rewrite <- app_assoc.
Qed.

(** X7.  The outbound buffer is a queue.  Whatever messages are passed to
    [send_to_claude], in whatever number, one [get_and_consume_messages]
    returns what was buffered before followed by them in the order sent,
    without waiting, and empties the buffer, so that the next call
    returns the empty list; nothing but [_claude_outgoing] changes. *)
Theorem outbound_messages_consumed_in_order w buf messages :
  _claude_outgoing (attrs w) = Some buf →
  ∃ w1 w2,
    for_each ClaudeMessageReceiver.send_to_claude messages w
      = Returned tt w1 ∧
    ClaudeMessageReceiver.get_and_consume_messages w1
      = Returned (buf ++ messages) w2 ∧
    attrs w2 = set_claude_outgoing [] (attrs w) ∧
    store w2 = store w ∧
    _WORKFLOW_TOOL_REGISTRY w2 = _WORKFLOW_TOOL_REGISTRY w ∧
    ClaudeMessageReceiver.get_and_consume_messages w2 = Returned [] w2.
Proof.
  intros Hbuf.
  destruct (for_each_send_to_claude messages w buf Hbuf)
    as (w1 & Hrun & Ha & Hs & Ht).
  exists w1. eexists. split; [done |].
  rewrite (get_and_consume_messages_ready w1 (buf ++ messages))
    by (by rewrite Ha).
  split_and!; [reflexivity | | done | done |].
  - reduce_world. by rewrite Ha.
  - by rewrite (get_and_consume_messages_ready _ []).
Qed.

Lemma outbound_messages_consumed_in_order_witness :
  ∃ w1 w2,
    for_each ClaudeMessageReceiver.send_to_claude
      ["first"; "second"; "third"; "fourth"] Sample.started
      = Returned tt w1 ∧
    ClaudeMessageReceiver.get_and_consume_messages w1
      = Returned ["first"; "second"; "third"; "fourth"] w2 ∧
    ClaudeMessageReceiver.get_and_consume_messages w2 = Returned [] w2.
Proof.
  destruct (outbound_messages_consumed_in_order Sample.started []
              ["first"; "second"; "third"; "fourth"])
    as (w1 & w2 & Hsend & Hget & _ & _ & _ & Hagain).
  - vm_compute. reflexivity.
  - exists w1, w2. split_and!; [exact Hsend | exact Hget | exact Hagain].
Defined.

Lemma for_each_receive_claude_message messages :
  ∀ w buf ev,
    _claude_messages (attrs w) = Some buf →
    _claude_message_event (attrs w) = Some ev →
    ∃ w',
      for_each ClaudeMessageReceiver.receive_claude_message messages w
        = Returned tt w' ∧
      attrs w' =
        set_claude_message_event (if messages is [] then ev else true)
          (set_claude_messages (buf ++ messages) (attrs w)) ∧
      store w' = store w ∧
      _WORKFLOW_TOOL_REGISTRY w' = _WORKFLOW_TOOL_REGISTRY w.
Proof.
  induction messages as [|m ms IH]; intros w buf ev Hbuf Hev; simpl.
  - exists w. rewrite app_nil_r. split_and!; try done.
    revert Hbuf Hev. destruct (attrs w); simpl. by intros -> ->.
  - rewrite (bind_eq_Returned _ _ _ _ _
               (receive_claude_message_ready m w buf ev Hbuf Hev)).
    destruct (IH (with_attrs
                    (set_claude_message_event true
                       (set_claude_messages (buf ++ [m]) (attrs w))) w)
                (buf ++ [m]) true eq_refl eq_refl)
      as (w' & Hrun & Ha & Hs & Ht).
    exists w'. split_and!; [done | | done | done].
    rewrite Ha. reduce_world. rewrite <- app_assoc. by destruct ms.
Qed.

(** X8.  The inbound buffer is a queue read without waiting by
    [get_claude_messages].  After any number of [receive_claude_message]
    deliveries it returns what was buffered before followed by the
    delivered messages in arrival order, leaves the buffer empty and the
    event cleared, and a second call returns the empty list; nothing but
    these two attributes changes. *)
Theorem inbound_messages_taken_in_order w buf ev messages :
  _claude_messages (attrs w) = Some buf →
  _claude_message_event (attrs w) = Some ev →
  ∃ w1 w2,
    for_each ClaudeMessageReceiver.receive_claude_message messages w
      = Returned tt w1 ∧
    ClaudeMessageReceiver.get_claude_messages w1
      = Returned (buf ++ messages) w2 ∧
    attrs w2 =
      set_claude_message_event false (set_claude_messages [] (attrs w)) ∧
    store w2 = store w ∧
    _WORKFLOW_TOOL_REGISTRY w2 = _WORKFLOW_TOOL_REGISTRY w ∧
    ClaudeMessageReceiver.get_claude_messages w2 = Returned [] w2.
Proof.
  intros Hbuf Hev.
  destruct (for_each_receive_claude_message messages w buf ev Hbuf Hev)
    as (w1 & Hrun & Ha & Hs & Ht).
  exists w1. eexists. split; [done |].
  rewrite (get_claude_messages_ready w1 (buf ++ messages)
             (if messages is [] then ev else true))
    by (by rewrite Ha).
  split_and!; [reflexivity | | done | done |].
  - reduce_world. by rewrite Ha.
  - by rewrite (get_claude_messages_ready _ [] false).
Qed.

Lemma inbound_messages_taken_in_order_witness :
  ∃ w1 w2,
    for_each ClaudeMessageReceiver.receive_claude_message
      [[("type", PyStr "system")]; [("type", PyStr "result")]] Sample.started
      = Returned tt w1 ∧
    ClaudeMessageReceiver.get_claude_messages w1
      = Returned [[("type", PyStr "system")]; [("type", PyStr "result")]] w2 ∧
    ClaudeMessageReceiver.get_claude_messages w2 = Returned [] w2.
Proof.
  destruct (inbound_messages_taken_in_order Sample.started [] false
              [[("type", PyStr "system")]; [("type", PyStr "result")]])
    as (w1 & w2 & Hrecv & Hget & _ & _ & _ & Hagain).
  - vm_compute. reflexivity.
  - vm_compute. reflexivity.
  - exists w1, w2. split_and!; [exact Hrecv | exact Hget | exact Hagain].
Defined.

(** ** Stable properties of the world *)

Lemma preserves_ret {A} P (a : A) : preserves P (ret a).
Proof. by intros w. Qed.

Lemma preserves_raise {A} P e : preserves P (@raise A e).
Proof. by intros w. Qed.

Lemma preserves_lift {A} P (c : Completion A) : preserves P (lift c).
Proof. intros w. unfold lift. by destruct c. Qed.

Lemma preserves_getattr {A} P name (field : Attrs → option A) :
  preserves P (getattr name field).
Proof. intros w. unfold getattr. by destruct (field (attrs w)). Qed.

Lemma preserves_await_event P e : preserves P (await_event e).
Proof. intros w. unfold await_event. by destruct (Event.is_set e). Qed.

Lemma preserves_wait_for_event P e t : preserves P (wait_for_event e t).
Proof.
  intros w. unfold wait_for_event.
  by destruct (Event.is_set e), (Qle_bool t 0).
Qed.

Lemma preserves_get_world P : preserves P get_world.
Proof. by intros w. Qed.

Lemma preserves_registry_get P l name :
  preserves P (ToolDecorator.registry_get l name).
Proof. by intros w. Qed.

Lemma preserves_bind {A B} P (m : M A) (k : A → M B) :
  preserves P m → (∀ a, preserves P (k a)) → preserves P (bind m k).
Proof.
  intros Hm Hk w Hw. specialize (Hm w Hw). unfold bind.
  destruct (m w) as [a w1|e w1|w1]; simpl in *; [by apply Hk | done..].
Qed.

Lemma preserves_try {A} P (body : M A) clauses :
  preserves P body →
  (∀ e h, clauses e = Some h → preserves P h) →
  preserves P (try_ body clauses).
Proof.
  intros Hb Hc w Hw. specialize (Hb w Hw). unfold try_.
  destruct (body w) as [a w1|e w1|w1]; simpl in *; [done | | done].
  destruct (clauses e) as [h|] eqn:He; [by eapply Hc | done].
Qed.

Lemma preserves_setattr P upd :
  (∀ w, P w → P (with_attrs (upd (attrs w)) w)) →
  preserves P (setattr upd).
Proof. intros Hupd w Hw. by apply Hupd. Qed.

Lemma preserves_init_unless_hasattr {A} P (field : Attrs → option A) :
  (∀ w, P w → is_Some (field (attrs w))) →
  preserves P (ClaudeMessageReceiver.init_unless_hasattr field).
Proof.
  intros Hf w Hw. by rewrite init_unless_hasattr_present by auto.
Qed.

(** The method [get_tool_registry] does nothing when [_tool_registry] is
    assigned; otherwise it can change that attribute and the registries. *)
Lemma preserves_get_tool_registry_present P :
  (∀ w, P w → is_Some (_tool_registry (attrs w))) →
  preserves P ClaudeMessageReceiver.get_tool_registry.
Proof.
  intros Hf w Hw. destruct (Hf w Hw) as [l Hl].
  by rewrite (receiver_get_tool_registry_present w l Hl).
Qed.

Lemma preserves_get_tool_registry_data P :
  (∀ w w', P w → attrs w' = attrs w → P w') →
  (∀ w l, P w → P (with_attrs (set_tool_registry l (attrs w)) w)) →
  preserves P ClaudeMessageReceiver.get_tool_registry.
Proof.
  intros Hattrs Hreg w Hw.
  destruct (receiver_get_tool_registry_cases w)
    as [(l & w' & -> & Ha & _)|(e & w' & -> & _ & Ha & _)]; simpl.
  - apply (Hattrs (with_attrs (set_tool_registry l (attrs w)) w));
      [by apply Hreg | done].
  - by apply (Hattrs w).
Qed.

Ltac solve_clauses :=
  let e := fresh "e" in
  intros e ?;
  unfold or_except, except_ToolDenied, except_Exception, except_TimeoutError;
  destruct e; simpl; intros ?; simplify_eq.

(** [preserves_steps tac reg ini] walks through a method body; [tac] has
    to show that the property survives each assignment, [reg] that it
    survives the method [get_tool_registry], [ini] that it makes the lazy
    check pass. *)
Ltac preserves_steps tac reg ini :=
  repeat first
    [ lazymatch goal with
      | |- preserves _ ClaudeMessageReceiver.get_tool_registry => reg
      | |- preserves _ (ClaudeMessageReceiver.init_unless_hasattr _) =>
          apply preserves_init_unless_hasattr; ini
      end
    | apply preserves_ret | apply preserves_raise | apply preserves_lift
    | apply preserves_getattr | apply preserves_await_event
    | apply preserves_wait_for_event | apply preserves_registry_get
    | apply preserves_get_world
    | apply preserves_setattr; tac
    | apply preserves_bind; [| intros ?]
    | apply preserves_try; [| solve_clauses ]
    | case_match ].

(** A lazily initialising method establishes, from a coherent instance,
    every property that holds of the freshly assigned attributes and that
    the rest of the method keeps. *)
Lemma lazy_method_preserves {A B} P (field : Attrs → option A) (k : M B) w :
  (∀ a, uninitialized a → field a = None) →
  (∀ w' r, attrs w' = init_attrs r → P w') →
  preserves P k →
  coherent (attrs w) →
  (initialized (attrs w) → P w) →
  P (final ((ClaudeMessageReceiver.init_unless_hasattr field ;; k) w)).
Proof.
  intros Hfield Hinit Hk Hco HP.
  destruct (field (attrs w)) as [x|] eqn:Hx.
  - rewrite (bind_eq_Returned _ _ _ _ _
               (init_unless_hasattr_present field w
                  ltac:(rewrite Hx; eauto))).
    apply Hk, HP. destruct Hco as [Hi|Hu]; [done |].
    apply Hfield in Hu. congruence.
  - unfold bind. rewrite init_unless_hasattr_absent by done.
    destruct (init_claude_receiver_cases w)
      as [(l & w1 & -> & Ha & _)|(e & w1 & -> & _ & Ha & _)]; simpl.
    + apply Hk. by eapply Hinit.
    + by eapply Hinit.
Qed.

(** X9.  [_pending_tool_requests] and [_tool_request_event] are assigned by
    [init_claude_receiver] and used by nothing else: on a coherent instance
    (on which they are either missing or still the empty list and the unset
    event) every method leaves them the empty list and the unset event; in
    particular [request_tool_execution] never queues the request. *)
Theorem request_queue_never_used w :
  coherent (attrs w) →
  (initialized (attrs w) → request_queue_idle w) →
  (∀ message, request_queue_idle (final
     (ClaudeMessageReceiver.receive_claude_message message w))) ∧
  (∀ timeout, request_queue_idle (final
     (ClaudeMessageReceiver.wait_for_claude_messages timeout w))) ∧
  request_queue_idle (final (ClaudeMessageReceiver.get_claude_messages w)) ∧
  request_queue_idle (final
    (ClaudeMessageReceiver.get_and_consume_messages w)) ∧
  (∀ message, request_queue_idle (final
     (ClaudeMessageReceiver.send_to_claude message w))) ∧
  (∀ request_dict, request_queue_idle (final
     (ClaudeMessageReceiver.request_tool_execution request_dict w))) ∧
  (∀ tool_id, request_queue_idle (final
     (ClaudeMessageReceiver.get_tool_result tool_id w))) ∧
  request_queue_idle (final (ClaudeMessageReceiver.init_claude_receiver w)).
Proof.
  intros Hco Hidle.
  assert (∀ w' r, attrs w' = init_attrs r → request_queue_idle w') as Hinit.
  { intros w' r Ha. unfold request_queue_idle. by rewrite Ha. }
  split_and!; intros;
    try (apply (lazy_method_preserves request_queue_idle);
         [ by intros a (? & ? & ? & ? & ? & ? & ?) | exact Hinit | | done | done ];
         preserves_steps
           ltac:(unfold request_queue_idle;
                 let w0 := fresh "w" in
                 intros w0; destruct w0 as [? ? [] ? ?]; simpl; tauto)
           ltac:(apply preserves_get_tool_registry_data;
                 unfold request_queue_idle;
                 [ by intros ? ? ? ->
                 | let w0 := fresh "w" in
                   intros w0 ?; destruct w0 as [? ? [] ? ?]; simpl; tauto ])
           ltac:(fail)).
  destruct (init_claude_receiver_cases w)
      as [(l & w1 & -> & Ha & _)|(e & w1 & -> & _ & Ha & _)]; simpl;
      by eapply Hinit.
Qed.

Lemma request_queue_never_used_witness :
  request_queue_idle (final
    (ClaudeMessageReceiver.request_tool_execution
       (Sample.request "t8" "Echo" "queued?") Sample.new_instance)) ∧
  request_queue_idle (final
    (ClaudeMessageReceiver.get_tool_result "t8" Sample.started)).
Proof.
  split.
  - refine (proj1 (proj2 (proj2 (proj2 (proj2 (proj2
              (request_queue_never_used Sample.new_instance _ _)))))) _).
    + right. by repeat split.
    + by intros ([? [=]] & _).
  - refine (proj1 (proj2 (proj2 (proj2 (proj2 (proj2 (proj2
              (request_queue_never_used Sample.started _ _))))))) _).
    + left. unfold initialized. split_and!; vm_compute; eexists; reflexivity.
    + intros _. vm_compute. by split.
Defined.

(** X10.  The inbound event is set exactly when the inbound buffer is
    non-empty, and every method keeps it so: on a coherent instance for
    which this holds (or which is not initialised yet), it holds again
    after each entry point and after [init_claude_receiver], however the
    call ends. *)
Theorem inbound_event_tracks_buffer w :
  coherent (attrs w) →
  (initialized (attrs w) → event_matches_buffer w) →
  (∀ message, event_matches_buffer (final
     (ClaudeMessageReceiver.receive_claude_message message w))) ∧
  (∀ timeout, event_matches_buffer (final
     (ClaudeMessageReceiver.wait_for_claude_messages timeout w))) ∧
  event_matches_buffer (final (ClaudeMessageReceiver.get_claude_messages w)) ∧
  event_matches_buffer (final
    (ClaudeMessageReceiver.get_and_consume_messages w)) ∧
  (∀ message, event_matches_buffer (final
     (ClaudeMessageReceiver.send_to_claude message w))) ∧
  (∀ request_dict, event_matches_buffer (final
     (ClaudeMessageReceiver.request_tool_execution request_dict w))) ∧
  (∀ tool_id, event_matches_buffer (final
     (ClaudeMessageReceiver.get_tool_result tool_id w))) ∧
  event_matches_buffer (final (ClaudeMessageReceiver.init_claude_receiver w)).
Proof.
  intros Hco Hinv.
  assert (∀ w' r, attrs w' = init_attrs r → event_matches_buffer w') as Hinit.
  { intros w' r Ha. exists [], false. rewrite Ha. by split_and!. }
  assert (∀ (upd : Attrs → Attrs),
            (∀ a, _claude_messages (upd a) = _claude_messages a ∧
                  _claude_message_event (upd a) = _claude_message_event a) →
            ∀ w0, event_matches_buffer w0 →
                  event_matches_buffer (with_attrs (upd (attrs w0)) w0))
    as Hupd.
  { intros upd Hsame w0 (buf & ev & Hb & He & Hiff). exists buf, ev.
    destruct (Hsame (attrs w0)) as [Hm Hv]. reduce_world.
    by rewrite Hm, Hv. }
  split_and!; intros;
    try (apply (lazy_method_preserves event_matches_buffer);
         [ by intros a (? & ? & ? & ? & ? & ? & ?) | exact Hinit | | done | done ]).
  - intros w0 (buf & ev & Hb & He & Hiff). run.
    rewrite Hb. reduce_world. rewrite He. reduce_world.
    exists (buf ++ [message]), true. split_and!; [done | done |].
    split; [intros _ | done]. by destruct buf.
  - intros w0 (buf & ev & Hb & He & Hiff).
    destruct timeout as [t|]; run; rewrite He; reduce_world.
    + destruct ev; reduce_world.
      * rewrite Hb. reduce_world. rewrite He. reduce_world.
        exists [], false. by split_and!.
      * destruct (Qle_bool t 0); reduce_world.
        -- rewrite Hb. reduce_world. rewrite He. reduce_world.
           exists [], false. by split_and!.
        -- by exists buf, false.
    + destruct ev; reduce_world.
      * rewrite Hb. reduce_world. rewrite He. reduce_world.
        exists [], false. by split_and!.
      * by exists buf, false.
  - intros w0 (buf & ev & Hb & He & Hiff). run.
    rewrite Hb. reduce_world. rewrite He. reduce_world.
    exists [], false. by split_and!.
  - preserves_steps ltac:(apply Hupd; by intros []) ltac:(fail) ltac:(fail).
  - preserves_steps ltac:(apply Hupd; by intros []) ltac:(fail) ltac:(fail).
  - preserves_steps
      ltac:(apply Hupd; by intros [])
      ltac:(apply preserves_get_tool_registry_data;
            [ intros ? ? (buf & ev & ? & ? & ?) Ha; exists buf, ev;
              by rewrite Ha
            | intros ? ?; apply Hupd; by intros [] ])
      ltac:(fail).
  - preserves_steps ltac:(apply Hupd; by intros []) ltac:(fail) ltac:(fail).
  - destruct (init_claude_receiver_cases w)
      as [(l & w1 & -> & Ha & _)|(e & w1 & -> & _ & Ha & _)]; simpl;
      by eapply Hinit.
Qed.

Lemma inbound_event_tracks_buffer_witness :
  event_matches_buffer (final
    (ClaudeMessageReceiver.receive_claude_message [("type", PyStr "system")]
       Sample.new_instance)) ∧
  event_matches_buffer (final
    (ClaudeMessageReceiver.wait_for_claude_messages None Sample.started)).
Proof.
  split.
  - refine (proj1 (inbound_event_tracks_buffer Sample.new_instance _ _) _).
    + right. by repeat split.
    + by intros ([? [=]] & _).
  - refine (proj1 (proj2
              (inbound_event_tracks_buffer Sample.started _ _)) None).
    + left. unfold initialized. split_and!; vm_compute; eexists; reflexivity.
    + intros _. exists [], false. by split_and!.
Defined.

(** X11.  While the event tracks the buffer, what
    [wait_for_claude_messages] does at the moment it is called depends on
    the buffer and the timeout only.  With something buffered it returns
    the whole buffer and empties it, whatever the timeout.  With nothing
    buffered it changes nothing and: without a timeout or with a positive
    timeout the caller is left suspended (for the latter until a message
    arrives or the time is up); with a timeout that is not positive it
    returns the empty list at once. *)
Theorem wait_suspends_iff_nothing_buffered w buf :
  event_matches_buffer w →
  _claude_messages (attrs w) = Some buf →
  (buf ≠ [] →
   ∀ timeout,
     ∃ w', ClaudeMessageReceiver.wait_for_claude_messages timeout w
             = Returned buf w' ∧
           _claude_messages (attrs w') = Some [] ∧
           _claude_message_event (attrs w') = Some false) ∧
  (buf = [] →
   ClaudeMessageReceiver.wait_for_claude_messages None w = Suspended w ∧
   (∀ t, Qle_bool t 0 = false →
         ClaudeMessageReceiver.wait_for_claude_messages (Some t) w
           = Suspended w) ∧
   (∀ t, Qle_bool t 0 = true →
         ∃ w', ClaudeMessageReceiver.wait_for_claude_messages (Some t) w
                 = Returned [] w' ∧
               attrs w' = attrs w)).
Proof.
  intros (buf' & ev & Hb & He & Hiff) Hbuf.
  rewrite Hb in Hbuf. injection Hbuf as ->.
  split.
  - intros Hne timeout. eexists.
    rewrite (wait_for_claude_messages_ready timeout w buf ev Hb He)
      by (left; by apply Hiff).
    by split_and!.
  - intros ->.
    assert (ev = false) as ->.
    { destruct ev; [| done]. by destruct Hiff as [H _]; destruct H. }
    split_and!.
    + by apply (wait_for_claude_messages_blocks w []).
    + intros t Ht. by apply (wait_for_claude_messages_parked t w []).
    + intros t Ht. eexists.
      rewrite (wait_for_claude_messages_ready (Some t) w [] false Hb He)
        by (right; by exists t).
      split; [reflexivity |]. reduce_world.
      revert Hb He. destruct (attrs w); simpl. by intros -> ->.
Qed.

Lemma wait_suspends_iff_nothing_buffered_witness :
  ClaudeMessageReceiver.wait_for_claude_messages None Sample.started
    = Suspended Sample.started ∧
  ClaudeMessageReceiver.wait_for_claude_messages (Some 5%Q) Sample.started
    = Suspended Sample.started ∧
  ∃ w', ClaudeMessageReceiver.wait_for_claude_messages (Some 0%Q)
          Sample.started = Returned [] w'.
Proof.
  destruct (wait_suspends_iff_nothing_buffered Sample.started [])
    as (_ & Hempty).
  - exists [], false. by split_and!.
  - reflexivity.
  - destruct (Hempty eq_refl) as (Hblock & Hparked & Hexpired).
    split_and!; [exact Hblock | by apply Hparked |].
    destruct (Hexpired 0%Q eq_refl) as (w' & Hrun & _). by exists w'.
Defined.

(** ** What each method leaves alone *)

Lemma frame_by_preserves {A T} (G : World → T) (m : M A) w :
  preserves (fun w' => initialized (attrs w') ∧ G w' = G w) m →
  initialized (attrs w) →
  G (final (m w)) = G w.
Proof. intros Hm Hini. by apply (Hm w). Qed.

Ltac frame_assignment :=
  let w0 := fresh "w" in
  let Hini := fresh "Hini" in
  let HG := fresh "HG" in
  intros w0 [Hini HG]; split;
  [ destruct w0 as [? ? [] ? ?]; unfold initialized in *; simpl in *;
    intuition eauto
  | rewrite <- HG; by destruct w0 as [? ? [] ? ?] ].

Ltac frame_registry_assignment :=
  let w0 := fresh "w" in
  let Hini := fresh "Hini" in
  let HG := fresh "HG" in
  intros w0 ? [Hini HG]; split;
  [ destruct w0 as [? ? [] ? ?]; unfold initialized in *; simpl in *;
    intuition eauto
  | rewrite <- HG; by destruct w0 as [? ? [] ? ?] ].

Ltac frame_lazy_check :=
  let Hini := fresh "Hini" in
  intros ? [Hini _]; unfold initialized in Hini; tauto.

(** X12.  On an initialised instance the three concerns do not interfere,
    however a call ends.  The inbound methods change neither the outbound
    buffer nor the tool state nor any registry; the outbound methods change
    neither the inbound buffer nor the tool state nor any registry;
    [get_tool_result] changes neither buffer nor any registry.  Of
    [request_tool_execution], the code before the handler is awaited and
    the code after it change neither buffer, and once [_tool_registry] is
    assigned they change no registry either: the registry is only read.
    (What the awaited handler itself does to the instance is the author's
    business and is not stated here.) *)
Theorem methods_keep_to_their_own_state w :
  initialized (attrs w) →
  (∀ message,
     let w' := final (ClaudeMessageReceiver.receive_claude_message message w) in
     outbound_state w' = outbound_state w ∧ tool_state w' = tool_state w ∧
     registry_state w' = registry_state w) ∧
  (∀ timeout,
     let w' := final (ClaudeMessageReceiver.wait_for_claude_messages timeout w) in
     outbound_state w' = outbound_state w ∧ tool_state w' = tool_state w ∧
     registry_state w' = registry_state w) ∧
  (let w' := final (ClaudeMessageReceiver.get_claude_messages w) in
   outbound_state w' = outbound_state w ∧ tool_state w' = tool_state w ∧
   registry_state w' = registry_state w) ∧
  (let w' := final (ClaudeMessageReceiver.get_and_consume_messages w) in
   inbound_state w' = inbound_state w ∧ tool_state w' = tool_state w ∧
   registry_state w' = registry_state w) ∧
  (∀ message,
     let w' := final (ClaudeMessageReceiver.send_to_claude message w) in
     inbound_state w' = inbound_state w ∧ tool_state w' = tool_state w ∧
     registry_state w' = registry_state w) ∧
  (∀ tool_id,
     let w' := final (ClaudeMessageReceiver.get_tool_result tool_id w) in
     inbound_state w' = inbound_state w ∧ outbound_state w' = outbound_state w ∧
     registry_state w' = registry_state w) ∧
  (∀ request result,
     let w' := final (ClaudeMessageReceiver.resolve request result w) in
     inbound_state w' = inbound_state w ∧ outbound_state w' = outbound_state w ∧
     registry_state w' = registry_state w) ∧
  (∀ request_dict,
     let w' := final (ClaudeMessageReceiver.accept request_dict w) in
     inbound_state w' = inbound_state w ∧ outbound_state w' = outbound_state w ∧
     (is_Some (_tool_registry (attrs w)) →
      registry_state w' = registry_state w)).
Proof.
  intros Hini.
  split_and!; intros; split_and!; try intros Hreg;
    (apply frame_by_preserves; [| done]).
  all: try (preserves_steps
              ltac:(frame_assignment)
              ltac:(apply preserves_get_tool_registry_data;
                    [ intros ? ? [? HG] Ha; rewrite Ha; split; [done |];
                      rewrite <- HG;
                      unfold inbound_state, outbound_state; by rewrite Ha
                    | frame_registry_assignment ])
              ltac:(frame_lazy_check); fail).
  preserves_steps
    ltac:(frame_assignment)
    ltac:(apply preserves_get_tool_registry_present;
          intros ? [_ HG]; injection HG as -> _ _; exact Hreg)
    ltac:(frame_lazy_check).
Qed.

Lemma methods_keep_to_their_own_state_witness :
  tool_state (final
    (ClaudeMessageReceiver.send_to_claude "{}" Sample.started))
    = tool_state Sample.started ∧
  registry_state (final
    (ClaudeMessageReceiver.accept
       (Sample.request "t9" "Bash" "ls") Sample.started))
    = registry_state Sample.started.
Proof.
  destruct (methods_keep_to_their_own_state Sample.started)
    as (_ & _ & _ & _ & Hsend & _ & _ & Hacc).
  - unfold initialized. split_and!; vm_compute; eexists; reflexivity.
  - split.
    + apply (Hsend "{}").
    + apply (Hacc (Sample.request "t9" "Bash" "ls")).
      vm_compute. eexists. reflexivity.
Defined.

(** ** Requests side by side *)

Lemma request_tool_execution_invalid d e w :
  is_Some (_pending_tool_requests (attrs w)) →
  ToolRequest.model_validate d = Raises e →
  ClaudeMessageReceiver.request_tool_execution d w = Raised e w.
Proof.
  intros Hp Hval. unfold ClaudeMessageReceiver.request_tool_execution.
  rewrite (bind_eq_Returned _ _ _ _ _
             (init_unless_hasattr_present _pending_tool_requests w Hp)).
  run. by rewrite Hval.
Qed.

(** What a valid request leaves behind for the ids it is not about. *)
Lemma request_tool_execution_other_ids d req w rs evs other :
  is_Some (_pending_tool_requests (attrs w)) →
  ToolRequest.model_validate d = Returns req →
  _tool_results (attrs w) = Some rs →
  _tool_result_events (attrs w) = Some evs →
  ToolRequest.tool_id req ≠ other →
  stored_result other
    (final (ClaudeMessageReceiver.request_tool_execution d w)) = rs !! other ∧
  result_event other
    (final (ClaudeMessageReceiver.request_tool_execution d w)) = evs !! other.
Proof.
  intros Hp Hval Hrs Hevs Hne.
  rewrite request_tool_execution_phases.
  set (wb := with_attrs
               (set_tool_result_events
                  (<[ToolRequest.tool_id req := Event.new]> evs) (attrs w)) w).
  assert (ClaudeMessageReceiver.accept d w =
          (registry <- ClaudeMessageReceiver.get_tool_registry ;;
           handler <- ToolDecorator.registry_get registry
                        (ToolRequest.tool_name req) ;;
           ret (req, handler)) wb) as Hacc.
  { unfold ClaudeMessageReceiver.accept.
    rewrite (bind_eq_Returned _ _ _ _ _
               (init_unless_hasattr_present _pending_tool_requests w Hp)).
    unfold bind at 1, lift. rewrite Hval.
    unfold bind at 1, getattr. rewrite Hevs. reflexivity. }
  assert (∀ w1 : World,
            (∃ r, attrs w1 = attrs wb ∨ attrs w1 = set_tool_registry r (attrs wb)) →
            stored_result other w1 = rs !! other ∧
            result_event other w1 = evs !! other) as Hframe.
  { intros w1 [r [Ha|Ha]]; unfold stored_result, result_event; rewrite Ha;
      subst wb; reduce_world; rewrite Hrs; simpl;
      by rewrite lookup_insert_ne. }
  remember ((rh <- ClaudeMessageReceiver.accept d ;;
             result <- ClaudeMessageReceiver.dispatch rh.1 rh.2 ;;
             ClaudeMessageReceiver.resolve rh.1 result) w) as o eqn:Ho.
  unfold bind at 1 in Ho. rewrite Hacc in Ho.
  destruct (receiver_get_tool_registry_cases wb)
    as [(l & w1 & Hreg & Ha & _)|(e & w1 & Hreg & _ & (Ha & _))].
  2: { rewrite (bind_eq_Raised _ _ _ _ _ Hreg) in Ho. subst o. simpl.
       apply Hframe. exists 1%positive. by left. }
  rewrite (bind_eq_Returned _ _ _ _ _ Hreg) in Ho.
  unfold bind at 2, ToolDecorator.registry_get, ret in Ho. simpl in Ho.
  assert (∀ result,
            stored_result other
              (final (ClaudeMessageReceiver.resolve req result w1))
              = rs !! other ∧
            result_event other
              (final (ClaudeMessageReceiver.resolve req result w1))
              = evs !! other) as Hres.
  { intros result.
    rewrite (resolve_eq req result w1 rs
               (<[ToolRequest.tool_id req := Event.new]> evs) false);
      [| rewrite Ha; subst wb; by reduce_world
       | rewrite Ha; subst wb; by reduce_world
       | apply lookup_insert_eq ].
    unfold stored_result, result_event. simpl.
    by rewrite !lookup_insert_ne. }
  assert (stored_result other w1 = rs !! other ∧
          result_event other w1 = evs !! other) as Hw1.
  { apply Hframe. exists l. by right. }
  destruct (ToolRegistry.get (ToolRequest.tool_name req) (store w1 !!! l))
    as [h|].
  - unfold bind in Ho. rewrite dispatch_eq in Ho.
    destruct (ToolHandler.handler h _ _) as [out|e]; [subst o; apply Hres |].
    destruct e; simpl in Ho; subst o; try apply Hres. exact Hw1.
  - unfold bind in Ho. simpl in Ho. subst o. apply Hres.
Qed.

(** X13.  Correlation ids do not interfere.  On an initialised instance,
    however the call ends, [get_tool_result] for one id and
    [request_tool_execution] for a request with one id leave the stored
    result and the event of every other id as they were. *)
Theorem correlation_ids_do_not_interfere w other :
  initialized (attrs w) →
  (∀ tool_id,
     tool_id ≠ other →
     let w' := final (ClaudeMessageReceiver.get_tool_result tool_id w) in
     stored_result other w' = stored_result other w ∧
     result_event other w' = result_event other w) ∧
  (∀ request_dict,
     (∀ req, ToolRequest.model_validate request_dict = Returns req →
             ToolRequest.tool_id req ≠ other) →
     let w' := final
       (ClaudeMessageReceiver.request_tool_execution request_dict w) in
     stored_result other w' = stored_result other w ∧
     result_event other w' = result_event other w).
Proof.
  intros Hini.
  pose proof Hini as (_ & _ & _ & Hp & [rs Hrs] & _ & [evs Hevs]).
  split.
  - intros tool_id Hne w'. subst w'.
    destruct (decide (evs !! tool_id = Some false)) as [He|He].
    + rewrite (get_tool_result_pending tool_id w evs); by rewrite ?Hrs.
    + rewrite (get_tool_result_ready tool_id w rs evs) by done.
      unfold stored_result, result_event. simpl. rewrite Hrs, Hevs. simpl.
      by rewrite !lookup_delete_ne.
  - intros d Hne w'. subst w'.
    destruct (ToolRequest.model_validate d) as [req|e] eqn:Hval.
    + destruct (request_tool_execution_other_ids d req w rs evs other)
        as [-> ->]; [done | done | done | done | by apply Hne |].
      unfold stored_result, result_event. by rewrite Hrs, Hevs.
    + by rewrite (request_tool_execution_invalid d e w).
Qed.

Lemma correlation_ids_do_not_interfere_witness :
  ∃ w1,
    ClaudeMessageReceiver.request_tool_execution
      (Sample.request "a" "Echo" "first") Sample.started = Returned tt w1 ∧
    stored_result "a"
      (final (ClaudeMessageReceiver.request_tool_execution
                (Sample.request "b" "Bash" "second") w1))
      = Some (ClaudeMessageReceiver.success_result "a" "first") ∧
    stored_result "a"
      (final (ClaudeMessageReceiver.get_tool_result "b" w1))
      = Some (ClaudeMessageReceiver.success_result "a" "first").
Proof.
  eexists. split; [vm_compute; reflexivity |].
  match goal with
  | |- context [ClaudeMessageReceiver.get_tool_result "b" ?w] =>
      destruct (correlation_ids_do_not_interfere w "a") as [Hget Hreq]
  end.
  - unfold initialized. split_and!; vm_compute; eexists; reflexivity.
  - split.
    + destruct (Hreq (Sample.request "b" "Bash" "second")) as [-> _];
        [| vm_compute; reflexivity].
      intros req [= <-]. discriminate.
    + destruct (Hget "b") as [-> _]; [discriminate | vm_compute; reflexivity].
Defined.

(** X14.  The per-id event is the rendezvous.  From the moment a request is
    accepted until its result is stored (while the handler is awaited),
    [get_tool_result] for its id stays suspended and changes nothing; as
    soon as the result is stored and the event set, the same call returns
    that result and removes both entries. *)
Theorem get_tool_result_waits_for_resolve d w req h w1 result :
  coherent (attrs w) →
  ClaudeMessageReceiver.accept d w = Returned (req, h) w1 →
  let tool_id := ToolRequest.tool_id req in
  ClaudeMessageReceiver.get_tool_result tool_id w1 = Suspended w1 ∧
  ∃ w2 w3,
    ClaudeMessageReceiver.resolve req result w1 = Returned tt w2 ∧
    ClaudeMessageReceiver.get_tool_result tool_id w2 = Returned result w3 ∧
    stored_result tool_id w3 = None ∧ result_event tool_id w3 = None.
Proof.
  intros Hco Hacc tool_id.
  destruct (accept_post d w req h w1 Hco Hacc)
    as (_ & rs & evs & l & Hrs & Hevs & He & _).
  split.
  - apply (get_tool_result_pending tool_id w1 evs); [| done | done].
    rewrite Hrs. eauto.
  - eexists. rewrite (resolve_eq req result w1 rs evs _ Hrs Hevs He).
    edestruct (get_tool_result_delivers tool_id) as (w3 & Hget & Hnr & Hne & _);
      [| | exists w3; split_and!; [reflexivity | exact Hget | done | done]].
    + apply stored_result_Some. eexists. reduce_world.
      split; [reflexivity | apply lookup_insert_eq].
    + apply result_event_Some. eexists. reduce_world.
      split; [reflexivity | apply lookup_insert_eq].
Qed.

Lemma get_tool_result_waits_for_resolve_witness :
  ∃ w1 w2 w3,
    ClaudeMessageReceiver.accept (Sample.request "t10" "Echo" "slow")
      Sample.started
      = Returned (Sample.tool_request "t10" "Echo" "slow",
                  Some (Sample.entry "Echo" workflow Sample.echo)) w1 ∧
    ClaudeMessageReceiver.get_tool_result "t10" w1 = Suspended w1 ∧
    ClaudeMessageReceiver.resolve (Sample.tool_request "t10" "Echo" "slow")
      (ClaudeMessageReceiver.success_result "t10" "slow") w1
      = Returned tt w2 ∧
    ClaudeMessageReceiver.get_tool_result "t10" w2
      = Returned (ClaudeMessageReceiver.success_result "t10" "slow") w3.
Proof.
  eexists.
  edestruct (get_tool_result_waits_for_resolve
               (Sample.request "t10" "Echo" "slow") Sample.started
               (Sample.tool_request "t10" "Echo" "slow")
               (Some (Sample.entry "Echo" workflow Sample.echo)))
    as (Hwait & w2 & w3 & Hres & Hget & _).
  - left. unfold initialized. split_and!; vm_compute; eexists; reflexivity.
  - vm_compute. reflexivity.
  - exists w2, w3.
    split_and!; [vm_compute; reflexivity | exact Hwait | exact Hres | exact Hget].
Defined.

(** X15.  A request dictionary that fails validation is rejected before
    anything is recorded: on an initialised instance
    [request_tool_execution] raises the validation error and leaves the
    world exactly as it was (no event is created, so a later
    [get_tool_result] for the id does not wait); on an instance not yet
    initialised, only the lazy initialisation has happened. *)
Theorem invalid_request_leaves_no_trace d e w :
  ToolRequest.model_validate d = Raises e →
  (is_Some (_pending_tool_requests (attrs w)) →
   ClaudeMessageReceiver.request_tool_execution d w = Raised e w) ∧
  (∀ w1,
     _pending_tool_requests (attrs w) = None →
     ClaudeMessageReceiver.init_claude_receiver w = Returned tt w1 →
     ClaudeMessageReceiver.request_tool_execution d w = Raised e w1 ∧
     ∀ tool_id,
       ClaudeMessageReceiver.get_tool_result tool_id w1 =
       Returned (ClaudeMessageReceiver.not_found_result tool_id) w1).
Proof.
  intros Hval. split.
  - intros Hp. by apply request_tool_execution_invalid.
  - intros w1 Hnone Hinit.
    destruct (init_claude_receiver_cases w)
      as [(l & w' & Hinit' & Ha & _)|(e' & w' & Hinit' & _)];
      rewrite Hinit' in Hinit; [|done].
    injection Hinit as ->. split.
    + unfold ClaudeMessageReceiver.request_tool_execution.
      unfold bind at 1. rewrite init_unless_hasattr_absent by done.
      rewrite Hinit'. run. by rewrite Hval.
    + intros tool_id.
      apply (get_tool_result_not_found tool_id w1 ∅ ∅);
        rewrite ?Ha; done.
Qed.

Lemma invalid_request_leaves_no_trace_witness :
  ClaudeMessageReceiver.request_tool_execution
    [("tool_id", PyStr "t11"); ("tool_name", PyInt 7)] Sample.started
    = Raised (ValidationError "ToolRequest") Sample.started ∧
  ClaudeMessageReceiver.get_tool_result "t11" Sample.started
    = Returned (ClaudeMessageReceiver.not_found_result "t11") Sample.started.
Proof.
  split.
  - apply (proj1 (invalid_request_leaves_no_trace
                    [("tool_id", PyStr "t11"); ("tool_name", PyInt 7)]
                    (ValidationError "ToolRequest") Sample.started eq_refl)).
    vm_compute. eexists. reflexivity.
  - vm_compute. reflexivity.
Defined.

(** ** Entry points on an instance that was never initialised *)

Lemma with_attrs_inbound_reset w r :
  attrs w = init_attrs r →
  with_attrs
    (set_claude_message_event false (set_claude_messages [] (attrs w))) w = w.
Proof. destruct w as [i ms a st tb]; simpl. by intros ->. Qed.

Lemma with_attrs_outbound_reset w r :
  attrs w = init_attrs r →
  with_attrs (set_claude_outgoing [] (attrs w)) w = w.
Proof. destruct w as [i ms a st tb]; simpl. by intros ->. Qed.

(** On a freshly initialised instance [request_tool_execution] raises only
    the validation error of its argument or what the handler raised
    outside [Exception]. *)
Lemma request_tool_execution_raises d w l e w' :
  attrs w = init_attrs (Some l) →
  ClaudeMessageReceiver.request_tool_execution d w = Raised e w' →
  ToolRequest.model_validate d = Raises e ∨ is_Exception e = false.
Proof.
  intros Ha. rewrite request_tool_execution_phases.
  destruct (ToolRequest.model_validate d) as [req|e0] eqn:Hval.
  - rewrite (bind_eq_Returned _ _ _ _ _
               (accept_ready d w req ∅ l
                  ltac:(rewrite Ha; simpl; eauto) Hval
                  ltac:(by rewrite Ha) ltac:(by rewrite Ha))).
    simpl fst; simpl snd.
    set (w1 := with_attrs _ w).
    assert (∀ result,
              ClaudeMessageReceiver.resolve req result w1 ≠ Raised e w')
      as Hres.
    { intros result.
      erewrite (resolve_eq req result w1 ∅);
        [done | subst w1; reduce_world; by rewrite Ha | reflexivity
        | apply lookup_insert_eq]. }
    destruct (ToolRegistry.get (ToolRequest.tool_name req) (store w !!! l))
      as [h|].
    + unfold bind at 1. rewrite dispatch_eq.
      destruct (ToolHandler.handler h _ _) as [out|e1];
        [intros H; by destruct (Hres _ H) |].
      destruct e1; simpl; try (intros H; by destruct (Hres _ H)).
      intros [= <- _]. by right.
    + unfold bind at 1. simpl. intros H. by destruct (Hres _ H).
  - rewrite <- request_tool_execution_phases.
    rewrite (request_tool_execution_invalid d e0 w
               ltac:(rewrite Ha; simpl; eauto) Hval).
    intros [= <- _]. by left.
Qed.

(** C10.  On an instance on which [init_claude_receiver] never ran (none of
    the data attributes assigned), every public entry point is safe to
    call.  The lazy initialisation it starts with does not suspend: it
    returns with the initialised empty state established (always, unless
    an attribute's access raises outside [Exception], which is the only
    thing it can raise).  Each entry point does there what it does right
    after [init_claude_receiver], leaves the data attributes assigned
    however it ends, and does not raise AttributeError.  And once the
    initialisation has returned, the entry point has behaved as on the
    fresh state: the delivered message is the only one buffered and the
    event is set; a wait finds nothing (suspended without timeout or with a
    positive one, the empty list with a timeout that is not positive);
    both drains return the empty list; the sent message is the only one
    queued; a request is handled as on the fresh state, raising at most its
    validation error or what the handler raised outside [Exception]; and
    any tool result is reported not found. *)
Theorem entry_points_safe_before_init w :
  uninitialized (attrs w) →
  ((∃ l w1,
      ClaudeMessageReceiver.init_claude_receiver w = Returned tt w1 ∧
      attrs w1 = init_attrs (Some l)) ∨
   (∃ e w1 name,
      ClaudeMessageReceiver.init_claude_receiver w = Raised e w1 ∧
      (name, Throws e) ∈ members w ∧ is_Exception e = false ∧
      attrs w1 = init_attrs (_tool_registry (attrs w)))) ∧
  (access_faults_are_Exceptions (members w) →
   ∃ l w1,
     ClaudeMessageReceiver.init_claude_receiver w = Returned tt w1 ∧
     attrs w1 = init_attrs (Some l)) ∧
  ((∀ message,
      initializes_first
        (ClaudeMessageReceiver.receive_claude_message message) w) ∧
   (∀ timeout,
      initializes_first
        (ClaudeMessageReceiver.wait_for_claude_messages timeout) w) ∧
   initializes_first ClaudeMessageReceiver.get_claude_messages w ∧
   initializes_first ClaudeMessageReceiver.get_and_consume_messages w ∧
   (∀ message,
      initializes_first (ClaudeMessageReceiver.send_to_claude message) w) ∧
   (∀ request_dict,
      initializes_first
        (ClaudeMessageReceiver.request_tool_execution request_dict) w) ∧
   (∀ tool_id,
      initializes_first (ClaudeMessageReceiver.get_tool_result tool_id) w)) ∧
  (∀ w1,
     ClaudeMessageReceiver.init_claude_receiver w = Returned tt w1 →
     (∀ message,
        ClaudeMessageReceiver.receive_claude_message message w =
        Returned tt
          (with_attrs
             (set_claude_message_event true
                (set_claude_messages [message] (attrs w1))) w1)) ∧
     ClaudeMessageReceiver.wait_for_claude_messages None w = Suspended w1 ∧
     (∀ t,
        ClaudeMessageReceiver.wait_for_claude_messages (Some t) w =
        if Qle_bool t 0 then Returned [] w1 else Suspended w1) ∧
     ClaudeMessageReceiver.get_claude_messages w = Returned [] w1 ∧
     ClaudeMessageReceiver.get_and_consume_messages w = Returned [] w1 ∧
     (∀ message,
        ClaudeMessageReceiver.send_to_claude message w =
        Returned tt (with_attrs (set_claude_outgoing [message] (attrs w1)) w1)) ∧
     (∀ request_dict,
        ClaudeMessageReceiver.request_tool_execution request_dict w =
        ClaudeMessageReceiver.request_tool_execution request_dict w1 ∧
        ∀ e w',
          ClaudeMessageReceiver.request_tool_execution request_dict w
            = Raised e w' →
          ToolRequest.model_validate request_dict = Raises e ∨
          is_Exception e = false) ∧
     (∀ tool_id,
        ClaudeMessageReceiver.get_tool_result tool_id w =
        Returned (ClaudeMessageReceiver.not_found_result tool_id) w1)).
Proof.
  intros Hu.
  pose proof entry_points_initialize_lazily
    as (Hrecv & Hwait & Hgcm & Hgac & Hsend & Hreq & Hget).
  pose proof (entry_points_leave_initialized w (or_intror Hu))
    as (Irecv & Iwait & Igcm & Igac & Isend & Ireq & Iget & _).
  split_and!.
  - destruct (init_claude_receiver_cases w)
      as [(l & w1 & Hinit & Ha & _)
         |(e & w1 & Hinit & He & Ha & _ & _ & name & Hin)].
    + left. by exists l, w1.
    + right. by exists e, w1, name.
  - intros Hok.
    destruct (init_claude_receiver_cases w)
      as [(l & w1 & Hinit & Ha & _)
         |(e & w1 & Hinit & He & Ha & _ & _ & name & Hin)].
    + by exists l, w1.
    + apply Hok in Hin. congruence.
  - intros message. destruct (Hrecv message w Hu). by split_and!.
  - intros timeout. destruct (Hwait timeout w Hu). by split_and!.
  - destruct (Hgcm w Hu). by split_and!.
  - destruct (Hgac w Hu). by split_and!.
  - intros message. destruct (Hsend message w Hu). by split_and!.
  - intros d. destruct (Hreq d w Hu). by split_and!.
  - intros tool_id. destruct (Hget tool_id w Hu). by split_and!.
  - intros w1 Hinit.
    destruct (init_claude_receiver_cases w)
      as [(l & w1' & Hinit' & Ha & _)|(e & w1' & Hinit' & _)];
      rewrite Hinit' in Hinit; [|done].
    injection Hinit as ->.
    assert (∀ {A} (method : M A),
              lazily_initializing method → method w = method w1) as Hthen.
    { intros A method Hm. destruct (Hm w Hu) as [-> _].
      by rewrite (bind_eq_Returned _ _ _ _ _ Hinit'). }
    split_and!.
    + intros message. rewrite (Hthen _ _ (Hrecv message)).
      by rewrite (receive_claude_message_ready message w1 [] false)
        by (by rewrite Ha).
    + rewrite (Hthen _ _ (Hwait None)).
      apply (wait_for_claude_messages_blocks w1 []); by rewrite Ha.
    + intros t. rewrite (Hthen _ _ (Hwait (Some t))).
      destruct (Qle_bool t 0) eqn:Ht.
      * rewrite (wait_for_claude_messages_ready (Some t) w1 [] false)
          by (first [by rewrite Ha | right; by exists t]).
        by rewrite (with_attrs_inbound_reset w1 (Some l)).
      * apply (wait_for_claude_messages_parked t w1 []);
          first [by rewrite Ha | done].
    + rewrite (Hthen _ _ Hgcm).
      rewrite (get_claude_messages_ready w1 [] false) by (by rewrite Ha).
      by rewrite (with_attrs_inbound_reset w1 (Some l)).
    + rewrite (Hthen _ _ Hgac).
      rewrite (get_and_consume_messages_ready w1 []) by (by rewrite Ha).
      by rewrite (with_attrs_outbound_reset w1 (Some l)).
    + intros message. rewrite (Hthen _ _ (Hsend message)).
      by rewrite (send_to_claude_ready message w1 []) by (by rewrite Ha).
    + intros d. rewrite (Hthen _ _ (Hreq d)). split; [done |].
      intros e w'. by apply (request_tool_execution_raises d w1 l).
    + intros tool_id. rewrite (Hthen _ _ (Hget tool_id)).
      apply (get_tool_result_not_found tool_id w1 ∅ ∅);
        first [by rewrite Ha | apply lookup_empty].
Qed.

Lemma entry_points_safe_before_init_witness :
  (∃ l w1,
     ClaudeMessageReceiver.init_claude_receiver Sample.new_instance
       = Returned tt w1 ∧
     attrs w1 = init_attrs (Some l) ∧
     ClaudeMessageReceiver.get_and_consume_messages Sample.new_instance
       = Returned [] w1 ∧
     ClaudeMessageReceiver.get_tool_result "t1" Sample.new_instance
       = Returned (ClaudeMessageReceiver.not_found_result "t1") w1 ∧
     ClaudeMessageReceiver.send_to_claude "{}" Sample.new_instance
       = Returned tt (with_attrs (set_claude_outgoing ["{}"] (attrs w1)) w1)) ∧
  initializes_first
    (ClaudeMessageReceiver.request_tool_execution
       (Sample.request "t1" "Echo" "42")) Sample.new_instance.
Proof.
  destruct (entry_points_safe_before_init Sample.new_instance)
    as (_ & Hreturns & Hsafe & Hthen).
  - by repeat split.
  - split.
    + destruct Hreturns as (l & w1 & Hinit & Ha).
      { intros name e Hin. simpl in Hin.
        repeat (apply elem_of_cons in Hin as [Heq|Hin];
                [by (inversion Heq; subst) |]).
        inversion Hin. }
      destruct (Hthen w1 Hinit) as (_ & _ & _ & _ & Hgac & Hsend & _ & Hget).
      exists l, w1.
      split_and!; [exact Hinit | exact Ha | exact Hgac | apply Hget | apply Hsend].
    + apply Hsafe.
Defined.
